(** * Spacelift client: authenticated GraphQL execution with a cached JWT

    A shallow embedding of the client module (credential extraction, cache
    key, token refresh, query execution with one retry on "unauthorized",
    GraphQL error rendering) and of the [createStackFromBlueprint] block's
    handler, followed by the properties checked against them.

    Conventions of the embedding.
    - A value of TypeScript type [any] (configuration values, the [data]
      of a response, GraphQL variables) is a [jsval]; JavaScript truthiness
      and string coercion are written out on it.  Numbers are the
      integer-valued ones, as [Z]; what is stated about their arithmetic
      or their printing is stated for the integers a JavaScript number
      holds exactly.  A [JObj] lists the entries of an object in the
      order the object enumerates them.
    - Values at a declared interface type are records; an optional field
      [f?: T] is an [option].
    - Strings are [string]; [toLowerCase] folds the ASCII letters.
    - [async] code is sequential here: the code awaits every call, so a
      computation is a function from the world before to a result and the
      world after.  The world holds the key/value store [kv.app], the
      clock, the answers the remote endpoint will give, and a log of the
      requests made.  A request that gets no answer is rejected; the calls
      of [kv.app] always succeed, and the expiry of an entry is the
      store's business: an expired entry is simply absent. *)

From stdpp Require Import base option list gmap strings pretty.
From Stdlib Require Import ZArith Lia Ascii String.

Set Warnings "-register-all".

Local Open Scope Z_scope.
Local Open Scope string_scope.

(** ** JavaScript values *)

Inductive jsval : Type :=
| JUndefined
| JNull
| JBool (b : bool)
| JNum (n : Z)
| JStr (s : string)
| JArr (items : list jsval)
| JObj (entries : list (string * jsval)).

(** [!!v] of JavaScript: [undefined], [null], [false], [0] and the empty
    string are falsy, everything else (arrays and objects included, also
    empty ones) is truthy. *)
Definition truthy (v : jsval) : bool :=
  match v with
  | JUndefined | JNull => false
  | JBool b => b
  | JNum n => negb (n =? 0)%Z
  | JStr s => negb (String.eqb s "")
  | JArr _ | JObj _ => true
  end.

(** [Array.prototype.join] on strings. *)
Definition join (sep : string) (parts : list string) : string :=
  String.concat sep parts.

(** [String(v)], which is also what a template literal [`${v}`] does.  An
    array renders its elements joined by commas, [null] and [undefined]
    elements as the empty string; a plain object renders as
    [[object Object]]. *)
Fixpoint js_String (v : jsval) : string :=
  match v with
  | JUndefined => "undefined"
  | JNull => "null"
  | JBool true => "true"
  | JBool false => "false"
  | JNum n => pretty n
  | JStr s => s
  | JArr items =>
      join "," (map (fun x => match x with
                              | JUndefined | JNull => ""
                              | _ => js_String x
                              end) items)
  | JObj _ => "[object Object]"
  end.

(** [o[k]] on a configuration object: a missing key reads as [undefined]. *)
Definition prop (o : gmap string jsval) (k : string) : jsval :=
  default JUndefined (o !! k).

(** ** Strings *)

Definition nl : string := String "010"%char "".

Definition lower_ascii (c : ascii) : ascii :=
  let n := N_of_ascii c in
  if ((65 <=? n) && (n <=? 90))%N then ascii_of_N (n + 32) else c.

(** [String.prototype.toLowerCase]. *)
Fixpoint toLowerCase (s : string) : string :=
  match s with
  | EmptyString => EmptyString
  | String c rest => String (lower_ascii c) (toLowerCase rest)
  end.

(** [String.prototype.includes]: [sub] occurs in [s] at some position. *)
Fixpoint includes (s sub : string) : bool :=
  String.prefix sub s ||
  match s with
  | EmptyString => false
  | String _ rest => includes rest sub
  end.

(** ** Credentials *)

Record SpaceliftCredentials : Type := {
  apiKeyId : jsval;
  apiKeySecret : jsval;
  endpoint : jsval
}.

(** The values thrown: every [throw] of the module is a [new Error(msg)];
    [TypeError] is what reading a property of [undefined] or [null] throws;
    [FetchRejected] stands for a rejected [fetch] or [response.json()]. *)
Inductive exn : Type :=
| Error (msg : string)
| TypeError
| FetchRejected.

Inductive Result (A : Type) : Type :=
| Ok (a : A)
| Throw (e : exn).
Arguments Ok {A} a.
Arguments Throw {A} e.

Definition getCacheKey (credentials : SpaceliftCredentials) : string :=
  "spacelift_jwt_" +:+ js_String (endpoint credentials) +:+ "_"
    +:+ js_String (apiKeyId credentials).

Definition extractCredentials (appConfig : gmap string jsval)
  : Result SpaceliftCredentials :=
  if negb (truthy (prop appConfig "apiKeyId"))
     || negb (truthy (prop appConfig "apiKeySecret"))
     || negb (truthy (prop appConfig "endpoint"))
  then Throw (Error "Missing required Spacelift credentials in app config")
  else Ok {| apiKeyId := prop appConfig "apiKeyId";
             apiKeySecret := prop appConfig "apiKeySecret";
             endpoint := prop appConfig "endpoint" |}.

(** ** Responses of the remote endpoint *)

(** One element of [errors]: a [message] of type [string] and optional
    [extensions] of type [Record<string, string>].  The extensions are
    kept as their entries, in the order [Object.entries] lists them. *)
Record ApiError : Type := {
  message : string;
  extensions : option (list (string * string))
}.

(** [SpaceliftApiResponse<T>]: [{ data?: T; errors?: Array<...> }]. *)
Record SpaceliftApiResponse (T : Type) : Type := {
  data : option T;
  errors : option (list ApiError)
}.
Arguments data {T} _.
Arguments errors {T} _.

(** The payload of the login mutation.  The code reads it through optional
    chaining, so every level may be missing. *)
Record ApiKeyUser : Type := {
  jwt : option string;
  validUntil : option Z
}.

Record LoginData : Type := {
  apiKeyUser : option ApiKeyUser
}.

(** ** The world *)

Record CachedJWTToken : Type := { cached_jwt : string }.

(** An entry of [kv.app]: the value and the ttl (seconds) it was set with. *)
Record KvEntry : Type := {
  kv_value : CachedJWTToken;
  kv_ttl : Z
}.

Inductive Event : Type :=
| EvKvGet (key : string)
| EvKvSet (key : string) (value : CachedJWTToken) (ttl : Z)
| EvLogin (url : string) (id secret : jsval)
| EvQuery (url : string) (token : string) (query : string)
          (variables : option jsval)
| EvEmit (payload : jsval).

(** [login_answers] and [query_answers] are the parsed bodies the endpoint
    returns to the successive login and query requests; when none is left
    the request is rejected.  [clock n] is what the [n]-th call of
    [Date.now()] returns (milliseconds).  [log] has the latest event
    first; [EvEmit] is an event published through [events.emit]. *)
Record World : Type := {
  kv_app : gmap string KvEntry;
  clock : nat -> Z;
  clock_reads : nat;
  login_answers : list (SpaceliftApiResponse LoginData);
  query_answers : list (SpaceliftApiResponse jsval);
  log : list Event
}.

Definition M (A : Type) : Type := World -> Result A * World.

#[global] Instance M_ret : MRet M := fun A a w => (Ok a, w).

#[global] Instance M_bind : MBind M := fun A B f m w =>
  match m w with
  | (Ok a, w') => f a w'
  | (Throw e, w') => (Throw e, w')
  end.

Definition throw {A : Type} (e : exn) : M A := fun w => (Throw e, w).

Definition emit (e : Event) (w : World) : World :=
  {| kv_app := kv_app w; clock := clock w; clock_reads := clock_reads w;
     login_answers := login_answers w; query_answers := query_answers w;
     log := e :: log w |}.

(** [kv.app.get(key)]: the stored value, if any. *)
Definition kv_get (key : string) : M (option CachedJWTToken) := fun w =>
  (Ok (kv_value <$> kv_app w !! key), emit (EvKvGet key) w).

(** [kv.app.set({key, value, ttl})]. *)
Definition kv_set (key : string) (value : CachedJWTToken) (ttl : Z)
  : M unit := fun w =>
  let w' := emit (EvKvSet key value ttl) w in
  (Ok tt,
   {| kv_app := <[key := {| kv_value := value; kv_ttl := ttl |}]> (kv_app w');
      clock := clock w'; clock_reads := clock_reads w';
      login_answers := login_answers w'; query_answers := query_answers w';
      log := log w' |}).

(** [Date.now()]. *)
Definition Date_now : M Z := fun w =>
  (Ok (clock w (clock_reads w)),
   {| kv_app := kv_app w; clock := clock w; clock_reads := S (clock_reads w);
      login_answers := login_answers w; query_answers := query_answers w;
      log := log w |}).

(** The [fetch] of [fetchNewJWT] followed by [response.json()]. *)
Definition fetch_login (url : string) (id secret : jsval)
  : M (SpaceliftApiResponse LoginData) := fun w =>
  let w' := emit (EvLogin url id secret) w in
  match login_answers w' with
  | [] => (Throw FetchRejected, w')
  | r :: rest =>
      (Ok r,
       {| kv_app := kv_app w'; clock := clock w';
          clock_reads := clock_reads w';
          login_answers := rest; query_answers := query_answers w';
          log := log w' |})
  end.

(** The [fetch] of [makeRequest] followed by [response.json()]. *)
Definition fetch_query (url token query : string) (variables : option jsval)
  : M (SpaceliftApiResponse jsval) := fun w =>
  let w' := emit (EvQuery url token query variables) w in
  match query_answers w' with
  | [] => (Throw FetchRejected, w')
  | r :: rest =>
      (Ok r,
       {| kv_app := kv_app w'; clock := clock w';
          clock_reads := clock_reads w';
          login_answers := login_answers w'; query_answers := rest;
          log := log w' |})
  end.

(** ** The token manager *)

Definition graphql_url (credentials : SpaceliftCredentials) : string :=
  "https://" +:+ js_String (endpoint credentials) +:+ "/graphql".

Definition fetchNewJWT (credentials : SpaceliftCredentials)
  : M (string * Z) :=
  result ← fetch_login (graphql_url credentials)
             (apiKeyId credentials) (apiKeySecret credentials);
  match errors result with
  | Some errs =>
      throw (Error ("Authentication failed: "
                    +:+ join ", " (map message errs)))
  | None =>
      match data result ≫= apiKeyUser with
      | Some {| jwt := Some j; validUntil := Some v |} =>
          if negb (String.eqb j "") && negb (v =? 0)%Z
          then mret (j, v)
          else throw (Error "Failed to obtain JWT token or expiration time")
      | _ => throw (Error "Failed to obtain JWT token or expiration time")
      end
  end.

Definition refreshSpaceliftJWT (credentials : SpaceliftCredentials)
  : M string :=
  let cacheKey := getCacheKey credentials in
  '(jwt, validUntil) ← fetchNewJWT credentials;
  ms ← Date_now;
  let now := ms `div` 1000 in
  let ttlSeconds := Z.max (validUntil - now - 300) 60 in
  _ ← kv_set cacheKey {| cached_jwt := jwt |} ttlSeconds;
  mret jwt.

Definition getSpaceliftJWT (credentials : SpaceliftCredentials)
  : M string :=
  let cacheKey := getCacheKey credentials in
  cachedToken ← kv_get cacheKey;
  match cachedToken with
  | Some cached => mret (cached_jwt cached)
  | None => refreshSpaceliftJWT credentials
  end.

(** ** The query executor *)

Definition formatExtensions (exts : list (string * string)) : string :=
  join nl (imap (fun index '(key, value) =>
                   "    " +:+ pretty (index + 1)%nat +:+ ". " +:+ key
                     +:+ ": " +:+ value) exts).

(** The line of one error in the thrown message. *)
Definition error_line (e : ApiError) : string :=
  match extensions e with
  | Some exts => " - " +:+ message e +:+ ":" +:+ nl +:+ formatExtensions exts
  | None => " - " +:+ message e
  end.

(** The message of the error thrown for a list of errors (the template
    literal of lines 166 and 171). *)
Definition graphql_error_message (errs : list ApiError) : string :=
  "GraphQL error:" +:+ nl +:+ join nl (map error_line errs) +:+ nl.

Definition makeRequest (credentials : SpaceliftCredentials) (query : string)
    (variables : option jsval) (token : string)
  : M (SpaceliftApiResponse jsval) :=
  fetch_query (graphql_url credentials) token query variables.

(** The test of line 158 on the errors of the first response. *)
Definition is_unauthorized (errs : list ApiError) : bool :=
  includes (toLowerCase (join " " (map message errs))) "unauthorized".

Definition executeSpaceliftQuery (credentials : SpaceliftCredentials)
    (query : string) (variables : option jsval) : M jsval :=
  jwt ← getSpaceliftJWT credentials;
  result ← makeRequest credentials query variables jwt;
  result ← match errors result with
           | Some errs =>
               if is_unauthorized errs then
                 jwt ← refreshSpaceliftJWT credentials;
                 result ← makeRequest credentials query variables jwt;
                 match errors result with
                 | Some errs' => throw (Error (graphql_error_message errs'))
                 | None => mret result
                 end
               else throw (Error (graphql_error_message errs))
           | None => mret result
           end;
  match data result with
  | Some d =>
      if truthy d then mret d
      else throw (Error "No data returned from Spacelift API")
  | None => throw (Error "No data returned from Spacelift API")
  end.

(** ** The block [createStackFromBlueprint] *)

(** [Object.entries(v)]: own enumerable properties, in property order.  An
    object gives its entries, an array and a string their elements under
    their indices, any other value nothing. *)
Definition Object_entries (v : jsval) : list (string * jsval) :=
  match v with
  | JObj entries => entries
  | JArr items => imap (fun i x => (pretty i, x)) items
  | JStr s =>
      imap (fun i ch => (pretty i, JStr (String ch "")))
        (list_ascii_of_string s)
  | _ => []
  end.

(** [v.k] on a value: a [TypeError] on [undefined] and [null], the entry
    of an object, [undefined] otherwise. *)
Definition js_get (v : jsval) (k : string) : Result jsval :=
  match v with
  | JUndefined | JNull => Throw TypeError
  | JObj entries =>
      Ok (default JUndefined
            (snd <$> List.find (fun e => String.eqb (fst e) k) entries))
  | _ => Ok JUndefined
  end.

(** The [graphqlFieldKey] of each input of [inputConfig] (lines 9 to 27). *)
Definition inputConfig : list (string * string) :=
  [("blueprintId", "id"); ("inputs", "templateInputs")].

(** Modelled from the spec: [mapInputsToGraphQLVariables] lives in the
    module [utils], which is not among the sources.  Following the
    specification's scenario, every input that was supplied is passed on
    under the GraphQL field key its configuration names. *)
Definition mapInputsToGraphQLVariables (config : list (string * string))
    (inputs : gmap string jsval) : gmap string jsval :=
  foldr (fun '(name, field) mapped =>
           match inputs !! name with
           | Some v => <[field := v]> mapped
           | None => mapped
           end) ∅ config.

Definition CREATE_STACK_FROM_BLUEPRINT_MUTATION : string :=
  nl +:+ "  mutation CreateStackFromBlueprint("
  +:+ "$id: ID!, $input: BlueprintStackCreateInput!) {"
  +:+ nl +:+ "    blueprintCreateStack(id: $id, input: $input) {"
  +:+ nl +:+ "      stackIds"
  +:+ nl +:+ "      runIds"
  +:+ nl +:+ "    }"
  +:+ nl +:+ "  }"
  +:+ nl.

(** The pair built from one entry of the inputs (lines 53 to 56). *)
Definition input_pair (entry : string * jsval) : jsval :=
  let '(id, value) := entry in
  JObj [("id", JStr id); ("value", JStr (js_String value))].

(** Lines 46 to 64: the variables of the mutation, from the inputs of the
    event. *)
Definition createVariables (eventInputs : gmap string jsval) : jsval :=
  let mappedInputs := mapInputsToGraphQLVariables inputConfig eventInputs in
  let templateInputs :=
    if truthy (prop mappedInputs "templateInputs")
    then map input_pair (Object_entries (prop mappedInputs "templateInputs"))
    else [] in
  JObj [("id", prop mappedInputs "id");
        ("input", JObj [("templateInputs", JArr templateInputs)])].

(** What the handler receives: [input.event.inputConfig] and
    [input.app.config]. *)
Record BlockInput : Type := {
  event_inputConfig : gmap string jsval;
  app_config : gmap string jsval
}.

Definition lift {A : Type} (r : Result A) : M A := fun w => (r, w).

(** [events.emit(payload)]. *)
Definition events_emit (payload : jsval) : M unit := fun w =>
  (Ok tt, emit (EvEmit payload) w).

(** Lines 74 to 77: publish the ids of the created stacks and runs. *)
Definition emit_created (result : jsval) : M unit :=
  created ← lift (js_get result "blueprintCreateStack");
  stackIds ← lift (js_get created "stackIds");
  created' ← lift (js_get result "blueprintCreateStack");
  runIds ← lift (js_get created' "runIds");
  events_emit (JObj [("stackIds", stackIds); ("runIds", runIds)]).

Definition onEvent (input : BlockInput) : M unit :=
  let variables := createVariables (event_inputConfig input) in
  credentials ← lift (extractCredentials (app_config input));
  result ← executeSpaceliftQuery credentials
             CREATE_STACK_FROM_BLUEPRINT_MUTATION (Some variables);
  emit_created result.

(** * Notions used in the statements *)

Definition is_query (e : Event) : bool :=
  match e with EvQuery _ _ _ _ => true | _ => false end.

Definition is_login (e : Event) : bool :=
  match e with EvLogin _ _ _ => true | _ => false end.

(** The query requests and the login requests logged in a world. *)
Definition query_count (w : World) : nat :=
  List.length (List.filter is_query (log w)).

Definition login_count (w : World) : nat :=
  List.length (List.filter is_login (log w)).

(** The query requests, the login requests made between world [w] and a
    later world [w']. *)
Definition queries_sent (w w' : World) : nat :=
  (query_count w' - query_count w)%nat.

Definition logins_sent (w w' : World) : nat :=
  (login_count w' - login_count w)%nat.

(** Key [k] of the configuration is present and its value is truthy. *)
Definition present_and_truthy (appConfig : gmap string jsval) (k : string)
  : Prop :=
  exists v, appConfig !! k = Some v /\ truthy v = true.

(** Lines 176 to 180: what the executor does with a response it keeps. *)
Definition return_data (result : SpaceliftApiResponse jsval) : M jsval :=
  match data result with
  | Some d =>
      if truthy d then mret d
      else throw (Error "No data returned from Spacelift API")
  | None => throw (Error "No data returned from Spacelift API")
  end.

(** Whether the errors of a response, if any, pass the test of line 158. *)
Definition matched (r : SpaceliftApiResponse jsval) : bool :=
  match errors r with
  | Some errs => is_unauthorized errs
  | None => false
  end.

(** Whether a refresh started in world [w] obtains a token. *)
Definition refresh_succeeds (c : SpaceliftCredentials) (w : World) : bool :=
  match fst (refreshSpaceliftJWT c w) with
  | Ok _ => true
  | Throw _ => false
  end.

(** What a run [run] does with a response [r] without errors that arrived
    in world [w]: truthy data is returned as it is; missing data and falsy
    data ([null], [false], [0], the empty string) end in the error
    "No data returned from Spacelift API".  The world stays [w]. *)
Definition returns_data_of (r : SpaceliftApiResponse jsval) (w : World)
    (run : Result jsval * World) : Prop :=
  (forall d, data r = Some d -> truthy d = true -> run = (Ok d, w))
  /\ (forall d, data r = Some d -> truthy d = false ->
        run = (Throw (Error "No data returned from Spacelift API"), w))
  /\ (data r = None ->
      run = (Throw (Error "No data returned from Spacelift API"), w)).

(** The rendering in words: the entries of the extensions are numbered
    from [n] on, one line each, [{indent}{n}. {key}: {value}]. *)
Fixpoint numbered_lines (indent : string) (n : nat)
    (exts : list (string * string)) : list string :=
  match exts with
  | [] => []
  | (key, value) :: rest =>
      (indent +:+ pretty n +:+ ". " +:+ key +:+ ": " +:+ value)
      :: numbered_lines indent (S n) rest
  end.

Definition rendered_error (indent : string) (e : ApiError) : string :=
  match extensions e with
  | None => " - " +:+ message e
  | Some exts =>
      " - " +:+ message e +:+ ":" +:+ nl
        +:+ join nl (numbered_lines indent 1 exts)
  end.

Definition rendered_message (indent : string) (errs : list ApiError)
  : string :=
  "GraphQL error:" +:+ nl +:+ join nl (map (rendered_error indent) errs)
    +:+ nl.

(** The cache key as the specification words it:
    [jwt:{endpointHost}:{keyId}]. *)
Definition spec_cache_key (credentials : SpaceliftCredentials) : string :=
  "jwt:" +:+ js_String (endpoint credentials) +:+ ":"
    +:+ js_String (apiKeyId credentials).

(** The message as the specification words it: extension lines of the form
    [{n}. {key}: {value}], without indentation. *)
Definition spec_graphql_error_message (errs : list ApiError) : string :=
  rendered_message "" errs.

(** The variables the specification expects for blueprint [blueprintId]
    and the template inputs [pairs], each an id with its string value. *)
Definition expected_variables (blueprintId : jsval)
    (pairs : list (string * string)) : jsval :=
  JObj [("id", blueprintId);
        ("input",
         JObj [("templateInputs",
                JArr (map (fun pair =>
                             JObj [("id", JStr (fst pair));
                                   ("value", JStr (snd pair))])
                        pairs))])].

(** * Sample inputs *)

Definition config_full : gmap string jsval :=
  <["apiKeyId" := JStr "a"]>
    (<["apiKeySecret" := JStr "b"]>
       (<["endpoint" := JStr "x.example.com"]> ∅)).

Definition config_no_endpoint : gmap string jsval :=
  <["apiKeyId" := JStr "a"]> (<["apiKeySecret" := JStr "b"]> ∅).

Definition creds_example : SpaceliftCredentials :=
  {| apiKeyId := JStr "K1"; apiKeySecret := JStr "s3cret";
     endpoint := JStr "x.example.com" |}.

Definition login_ok (j : string) (v : Z) : SpaceliftApiResponse LoginData :=
  {| data := Some {| apiKeyUser := Some {| jwt := Some j;
                                           validUntil := Some v |} |};
     errors := None |}.

Definition login_errors (errs : list ApiError)
  : SpaceliftApiResponse LoginData :=
  {| data := None; errors := Some errs |}.

Definition login_without_user : SpaceliftApiResponse LoginData :=
  {| data := Some {| apiKeyUser := None |}; errors := None |}.

Definition err (m : string) : ApiError :=
  {| message := m; extensions := None |}.

Definition query_errors (errs : list ApiError)
  : SpaceliftApiResponse jsval :=
  {| data := None; errors := Some errs |}.

Definition query_data (d : jsval) : SpaceliftApiResponse jsval :=
  {| data := Some d; errors := None |}.

Definition stack_created : jsval :=
  JObj [("blueprintCreateStack",
         JObj [("stackIds", JArr [JStr "stack-1"]);
               ("runIds", JArr [JStr "run-1"])])].

Definition errs_example : list ApiError :=
  [ {| message := "bad input";
       extensions := Some [("code", "BAD_USER_INPUT"); ("field", "id")] |};
    err "not found" ].

(** A world with an empty store, a clock that reads 1700000000123 ms and
    the given answers. *)
Definition world_example (logins : list (SpaceliftApiResponse LoginData))
    (queries : list (SpaceliftApiResponse jsval)) : World :=
  {| kv_app := ∅; clock := fun _ => 1700000000123; clock_reads := 0;
     login_answers := logins; query_answers := queries; log := [] |}.

(** A world whose store already holds a token for [creds_example]. *)
Definition world_cached (logins : list (SpaceliftApiResponse LoginData))
    (queries : list (SpaceliftApiResponse jsval)) : World :=
  {| kv_app := {[ getCacheKey creds_example :=
                    {| kv_value := {| cached_jwt := "cached" |};
                       kv_ttl := 3000 |} ]};
     clock := fun _ => 1700000000123; clock_reads := 0;
     login_answers := logins; query_answers := queries; log := [] |}.

Definition blueprint_inputs : gmap string jsval :=
  <["blueprintId" := JStr "bp1"]>
    (<["inputs" := JObj [("foo", JStr "bar")]]> ∅).

(** The whole numbers that a JavaScript number holds exactly and that
    [String] prints digit by digit: those between -2^53 and 2^53. *)
Definition safe_integer (n : Z) : Prop :=
  - 9007199254740992 < n < 9007199254740992.

(** The range of the epoch seconds and milliseconds the token manager
    computes with: [0 .. 2^52).  Differences of two such numbers, less
    300, are safe integers, and [Math.floor (ms / 1000)] is the integer
    quotient. *)
Definition exact_range (n : Z) : Prop := 0 <= n < 4503599627370496.


(** ** String coercion and property order, in the words of ECMAScript *)





Definition digit_of (c : ascii) : option N :=
  let n := N_of_ascii c in
  if ((48 <=? n) && (n <=? 57))%N then Some (n - 48)%N else None.

Fixpoint parse_digits (acc : N) (s : string) : option N :=
  match s with
  | EmptyString => Some acc
  | String c rest =>
      match digit_of c with
      | Some d => parse_digits (10 * acc + d) rest
      | None => None
      end
  end.

(** A property key that is an array index: the canonical numeral of a
    number below 2^32 - 1. *)
Definition array_index (key : string) : option N :=
  match key with
  | EmptyString => None
  | _ =>
      match parse_digits 0 key with
      | Some n =>
          if String.eqb (pretty n) key && (n <? 4294967295)%N
          then Some n else None
      | None => None
      end
  end.

Definition names_only (keys : list string) : bool :=
  forallb (fun key => match array_index key with
                      | Some _ => false
                      | None => true
                      end) keys.

(** Array indices from [lower] on in ascending order, then names. *)
Fixpoint indices_then_names (lower : N) (keys : list string) : bool :=
  match keys with
  | [] => true
  | key :: rest =>
      match array_index key with
      | Some n => (lower <=? n)%N && indices_then_names (n + 1) rest
      | None => names_only rest
      end
  end.


(** * Notions for the properties of whole runs *)

(** The paths through [executeSpaceliftQuery], one constructor per way the
    function can end, with the outcome of each call made on the way. *)
Inductive exec_path (c : SpaceliftCredentials) (q : string)
    (vars : option jsval) (w : World) : Result jsval * World -> Prop :=
| PathTokenFails e w1 :
    getSpaceliftJWT c w = (Throw e, w1) ->
    exec_path c q vars w (Throw e, w1)
| PathFirstRejected token w1 e w2 :
    getSpaceliftJWT c w = (Ok token, w1) ->
    makeRequest c q vars token w1 = (Throw e, w2) ->
    exec_path c q vars w (Throw e, w2)
| PathNoErrors token w1 r w2 :
    getSpaceliftJWT c w = (Ok token, w1) ->
    makeRequest c q vars token w1 = (Ok r, w2) ->
    errors r = None ->
    exec_path c q vars w (return_data r w2)
| PathOtherErrors token w1 r w2 errs :
    getSpaceliftJWT c w = (Ok token, w1) ->
    makeRequest c q vars token w1 = (Ok r, w2) ->
    errors r = Some errs -> is_unauthorized errs = false ->
    exec_path c q vars w (Throw (Error (graphql_error_message errs)), w2)
| PathRefreshFails token w1 r w2 errs e w3 :
    getSpaceliftJWT c w = (Ok token, w1) ->
    makeRequest c q vars token w1 = (Ok r, w2) ->
    errors r = Some errs -> is_unauthorized errs = true ->
    refreshSpaceliftJWT c w2 = (Throw e, w3) ->
    exec_path c q vars w (Throw e, w3)
| PathRetryRejected token w1 r w2 errs token' w3 e w4 :
    getSpaceliftJWT c w = (Ok token, w1) ->
    makeRequest c q vars token w1 = (Ok r, w2) ->
    errors r = Some errs -> is_unauthorized errs = true ->
    refreshSpaceliftJWT c w2 = (Ok token', w3) ->
    makeRequest c q vars token' w3 = (Throw e, w4) ->
    exec_path c q vars w (Throw e, w4)
| PathRetryErrors token w1 r w2 errs token' w3 r' w4 errs' :
    getSpaceliftJWT c w = (Ok token, w1) ->
    makeRequest c q vars token w1 = (Ok r, w2) ->
    errors r = Some errs -> is_unauthorized errs = true ->
    refreshSpaceliftJWT c w2 = (Ok token', w3) ->
    makeRequest c q vars token' w3 = (Ok r', w4) ->
    errors r' = Some errs' ->
    exec_path c q vars w (Throw (Error (graphql_error_message errs')), w4)
| PathRetryNoErrors token w1 r w2 errs token' w3 r' w4 :
    getSpaceliftJWT c w = (Ok token, w1) ->
    makeRequest c q vars token w1 = (Ok r, w2) ->
    errors r = Some errs -> is_unauthorized errs = true ->
    refreshSpaceliftJWT c w2 = (Ok token', w3) ->
    makeRequest c q vars token' w3 = (Ok r', w4) ->
    errors r' = None ->
    exec_path c q vars w (return_data r' w4).

(** What an event logged by a run for credentials [c], query [q] and
    variables [vars] may be: a lookup or a write under the cache key of
    [c], the write with a ttl of at least 60; a login at the endpoint of
    [c] with its id and secret; a query at that endpoint carrying [q] and
    [vars].  Nothing is published. *)
Definition event_of_run (c : SpaceliftCredentials) (q : string)
    (vars : option jsval) (ev : Event) : Prop :=
  match ev with
  | EvKvGet key => key = getCacheKey c
  | EvKvSet key _ ttl => key = getCacheKey c /\ 60 <= ttl
  | EvLogin url id secret =>
      url = graphql_url c /\ id = apiKeyId c /\ secret = apiKeySecret c
  | EvQuery url _ q' vars' => url = graphql_url c /\ q' = q /\ vars' = vars
  | EvEmit _ => False
  end.

(** World [w'] continues world [w] by events of a run. *)
Definition continues (c : SpaceliftCredentials) (q : string)
    (vars : option jsval) (w w' : World) : Prop :=
  exists new : list Event,
    log w' = (new ++ log w)%list /\ Forall (event_of_run c q vars) new.

(** The store of [w'] agrees with the store of [w] outside the cache key
    of [c]. *)
Definition same_store_elsewhere (c : SpaceliftCredentials) (w w' : World)
  : Prop :=
  forall key, key <> getCacheKey c -> kv_app w' !! key = kv_app w !! key.

(** [w'] follows [w] with the store changed at most under the cache key of
    [c], and changed only if a login was made in between. *)
Definition steady (c : SpaceliftCredentials) (w w' : World) : Prop :=
  same_store_elsewhere c w w'
  /\ (login_count w <= login_count w')%nat
  /\ (login_count w' = login_count w -> kv_app w' = kv_app w).

(** The errors a login can end in. *)
Definition login_failure (e : exn) : Prop :=
  e = FetchRejected
  \/ (exists errs,
        e = Error ("Authentication failed: "
                   +:+ join ", " (map message errs)))
  \/ e = Error "Failed to obtain JWT token or expiration time".

Definition is_emit (e : Event) : bool :=
  match e with EvEmit _ => true | _ => false end.

Definition emit_count (w : World) : nat :=
  List.length (List.filter is_emit (log w)).

(** Some message contains "unauthorized", whatever the case of its ASCII
    letters. *)
Definition some_message_unauthorized (errs : list ApiError) : bool :=
  existsb (fun e => includes (toLowerCase (message e)) "unauthorized") errs.

(** * Properties *)

Example getCacheKey_ex :
  getCacheKey {| apiKeyId := JStr "K1"; apiKeySecret := JStr "s";
                 endpoint := JStr "x.example.com" |}
  = "spacelift_jwt_x.example.com_K1".
Proof. reflexivity. Qed.

Example toLowerCase_ex : toLowerCase "UnAuthorized: 42" = "unauthorized: 42".
Proof. reflexivity. Qed.

Example includes_ex :
  includes "request unauthorized here" "unauthorized" = true
  /\ includes "unauth orized" "unauthorized" = false.
Proof. split; reflexivity. Qed.

Example property_order_ex :
  indices_then_names 0 ["0"; "2"; "10"; "name"; "other"] = true
  /\ indices_then_names 0 ["name"; "1"] = false
  /\ indices_then_names 0 ["2"; "1"] = false
  /\ array_index "01" = None /\ array_index "4294967295" = None.
Proof. repeat split. Qed.

Example js_String_ex :
  js_String (JNum 5) = "5" /\ js_String (JBool true) = "true"
  /\ js_String (JArr [JNum 1; JNull; JStr "x"]) = "1,,x".
Proof. repeat split. Qed.

(** A whole run of the block on a cached token: one lookup, one request
    carrying the variables, one published event. *)
Example onEvent_ex :
  let input := {| event_inputConfig := blueprint_inputs;
                  app_config :=
                    <["apiKeyId" := JStr "K1"]>
                      (<["apiKeySecret" := JStr "s3cret"]>
                         (<["endpoint" := JStr "x.example.com"]> ∅)) |} in
  let run := onEvent input (world_cached [] [query_data stack_created]) in
  fst run = Ok tt
  /\ log (snd run)
     = [ EvEmit (JObj [("stackIds", JArr [JStr "stack-1"]);
                       ("runIds", JArr [JStr "run-1"])]);
         EvQuery "https://x.example.com/graphql" "cached"
           CREATE_STACK_FROM_BLUEPRINT_MUTATION
           (Some (expected_variables (JStr "bp1") [("foo", "bar")]));
         EvKvGet "spacelift_jwt_x.example.com_K1" ].
Proof. vm_compute. split; reflexivity. Qed.

(** ** Stepping through a computation *)

Lemma bind_ok {A B : Type} (m : M A) (f : A -> M B) w a w' :
  m w = (Ok a, w') -> (m ≫= f) w = f a w'.
Proof. intros H. unfold mbind, M_bind. now rewrite H. Qed.

Lemma bind_throw {A B : Type} (m : M A) (f : A -> M B) w e w' :
  m w = (Throw e, w') -> (m ≫= f) w = (Throw e, w').
Proof. intros H. unfold mbind, M_bind. now rewrite H. Qed.

Ltac run_step :=
  unfold mbind, M_bind, mret, M_ret, throw in *; simpl in *.

Lemma fetchNewJWT_log c w res w' :
  fetchNewJWT c w = (res, w') ->
  log w' = EvLogin (graphql_url c) (apiKeyId c) (apiKeySecret c) :: log w
  /\ kv_app w' = kv_app w /\ clock w' = clock w
  /\ clock_reads w' = clock_reads w /\ query_answers w' = query_answers w.
Proof.
  unfold fetchNewJWT, fetch_login. run_step.
  intros H. repeat case_match; simplify_eq; simpl; auto.
Qed.

Lemma refreshSpaceliftJWT_inv c w res w' :
  refreshSpaceliftJWT c w = (res, w') ->
  match res with
  | Ok j =>
      exists v w1,
        fetchNewJWT c w = (Ok (j, v), w1)
        /\ log w' =
             EvKvSet (getCacheKey c) {| cached_jwt := j |}
               (Z.max (v - clock w (clock_reads w) `div` 1000 - 300) 60)
             :: EvLogin (graphql_url c) (apiKeyId c) (apiKeySecret c)
             :: log w
        /\ kv_app w' =
             <[getCacheKey c :=
                 {| kv_value := {| cached_jwt := j |};
                    kv_ttl := Z.max (v - clock w (clock_reads w) `div` 1000
                                     - 300) 60 |}]> (kv_app w)
        /\ query_answers w' = query_answers w
  | Throw e =>
      fetchNewJWT c w = (Throw e, w')
      /\ log w' = EvLogin (graphql_url c) (apiKeyId c) (apiKeySecret c)
                  :: log w
  end.
Proof.
  unfold refreshSpaceliftJWT. intros H.
  destruct (fetchNewJWT c w) as [r w1] eqn:F. destruct r as [[j v]|e].
  - apply fetchNewJWT_log in F as F'. destruct F' as (L & K & C & R & Q).
    unfold mbind, M_bind, mret, M_ret in H. rewrite F in H. simpl in H.
    simplify_eq. simpl. exists v, w1. rewrite L, K, C, R, Q. auto.
  - apply fetchNewJWT_log in F as F'. destruct F' as (L & _).
    unfold mbind, M_bind in H. rewrite F in H. simplify_eq. auto.
Qed.

Lemma makeRequest_inv c q vars token w res w' :
  makeRequest c q vars token w = (res, w') ->
  log w' = EvQuery (graphql_url c) token q vars :: log w
  /\ kv_app w' = kv_app w /\ login_answers w' = login_answers w
  /\ clock w' = clock w /\ clock_reads w' = clock_reads w.
Proof.
  unfold makeRequest, fetch_query. intros H.
  simpl in H. repeat case_match; simplify_eq; simpl; auto.
Qed.

Lemma getSpaceliftJWT_inv c w res w' :
  getSpaceliftJWT c w = (res, w') ->
  (exists e, kv_app w !! getCacheKey c = Some e
             /\ res = Ok (cached_jwt (kv_value e))
             /\ w' = emit (EvKvGet (getCacheKey c)) w)
  \/ (kv_app w !! getCacheKey c = None
      /\ refreshSpaceliftJWT c (emit (EvKvGet (getCacheKey c)) w)
         = (res, w')).
Proof.
  unfold getSpaceliftJWT, kv_get. unfold mbind at 1. unfold M_bind at 1.
  intros H. destruct (kv_app w !! getCacheKey c) as [e|] eqn:K; simpl in H.
  - left. exists e. unfold mret, M_ret in H. simplify_eq. auto.
  - right. auto.
Qed.

(** The number of query and login requests of each operation. *)

Lemma refreshSpaceliftJWT_sent c w res w' :
  refreshSpaceliftJWT c w = (res, w') ->
  queries_sent w w' = 0%nat /\ logins_sent w w' = 1%nat
  /\ query_count w' = query_count w
  /\ login_count w' = S (login_count w).
Proof.
  intros H. apply refreshSpaceliftJWT_inv in H.
  unfold queries_sent, logins_sent, query_count, login_count.
  destruct res as [j|e].
  - destruct H as (v & w1 & _ & L & _). rewrite L. simpl. lia.
  - destruct H as (_ & L). rewrite L. simpl. lia.
Qed.

Lemma makeRequest_sent c q vars token w res w' :
  makeRequest c q vars token w = (res, w') ->
  query_count w' = S (query_count w)
  /\ login_count w' = login_count w.
Proof.
  intros H. apply makeRequest_inv in H as (L & _).
  unfold query_count, login_count. rewrite L. simpl. lia.
Qed.

Lemma getSpaceliftJWT_sent c w res w' :
  getSpaceliftJWT c w = (res, w') ->
  query_count w' = query_count w.
Proof.
  intros H. apply getSpaceliftJWT_inv in H as [(e & _ & _ & ->)|(_ & H)].
  - reflexivity.
  - apply refreshSpaceliftJWT_sent in H as (_ & _ & Q & _). exact Q.
Qed.

(** ** Substrings *)

Lemma prefix_empty s : String.prefix "" s = true.
Proof. destruct s; reflexivity. Qed.

Lemma prefix_app sub t : String.prefix sub (sub +:+ t) = true.
Proof.
  induction sub as [|a sub IH]; simpl.
  - apply prefix_empty.
  - destruct (ascii_dec a a); [exact IH | congruence].
Qed.

Lemma prefix_app_l sub : forall s t,
  String.prefix sub s = true -> String.prefix sub (s +:+ t) = true.
Proof.
  induction sub as [|a sub IH]; intros s t H.
  - apply prefix_empty.
  - destruct s as [|b s]; simpl in *; [discriminate|].
    destruct (ascii_dec a b); [auto | discriminate].
Qed.

Lemma includes_prefix s sub :
  String.prefix sub s = true -> includes s sub = true.
Proof. intros H. destruct s; cbn [includes]; rewrite H; reflexivity. Qed.

Lemma includes_app_r s t sub :
  includes t sub = true -> includes (s +:+ t) sub = true.
Proof.
  intros H. induction s as [|a s IH]; simpl; [exact H|].
  rewrite IH. apply orb_true_r.
Qed.

Lemma includes_app_l s t sub :
  includes s sub = true -> includes (s +:+ t) sub = true.
Proof.
  induction s as [|a s IH]; intros H.
  - simpl in H. rewrite orb_false_r in H.
    apply includes_prefix. now apply prefix_app_l.
  - simpl in H. apply orb_true_iff in H as [H|H].
    + apply includes_prefix. now apply (prefix_app_l sub (String a s) t).
    + change (includes (String a (s +:+ t)) sub = true). simpl.
      rewrite (IH H). apply orb_true_r.
Qed.

Lemma append_empty_r s : s +:+ "" = s.
Proof.
  induction s as [|a s IH]; [reflexivity|].
  change (String a (s +:+ "") = String a s). now rewrite IH.
Qed.

Lemma includes_refl s : includes s s = true.
Proof.
  apply includes_prefix. rewrite <- (append_empty_r s) at 2.
  apply prefix_app.
Qed.

Lemma includes_join sep sub x parts :
  In x parts -> includes x sub = true ->
  includes (join sep parts) sub = true.
Proof.
  intros Hin Hx. induction parts as [|y parts IH]; [destruct Hin|].
  unfold join in *. destruct Hin as [->|Hin].
  - destruct parts; simpl; [exact Hx | now apply includes_app_l].
  - destruct parts as [|z parts]; [destruct Hin|].
    change (includes (y +:+ sep +:+ String.concat sep (z :: parts)) sub
            = true).
    apply includes_app_r, includes_app_r. auto.
Qed.

(** Every message of a list of errors occurs in the text thrown for it. *)
Lemma graphql_error_message_includes errs e :
  In e errs -> includes (graphql_error_message errs) (message e) = true.
Proof.
  intros Hin. unfold graphql_error_message.
  apply includes_app_r, includes_app_r, includes_app_l.
  apply (includes_join nl _ (error_line e)).
  - apply in_map, Hin.
  - unfold error_line.
    destruct (extensions e); apply includes_app_r;
      [apply includes_app_l|]; apply includes_refl.
Qed.

(** ** Credential extraction *)

Lemma truthy_prop appConfig k :
  truthy (prop appConfig k) = true <-> present_and_truthy appConfig k.
Proof.
  unfold prop, present_and_truthy. destruct (appConfig !! k) as [v|]; simpl.
  - split; [eauto | now intros (? & [= <-] & ?)].
  - split; [discriminate | now intros (? & [=] & _)].
Qed.

(** C4.  [extractCredentials] returns credentials exactly when [apiKeyId],
    [apiKeySecret] and [endpoint] are all present with a truthy value; it
    then returns those three values as they are, and otherwise throws the
    error "Missing required Spacelift credentials in app config".  It is a
    function of the configuration alone: no world is read or changed. *)
Theorem extractCredentials_spec (appConfig : gmap string jsval) :
  let complete :=
    present_and_truthy appConfig "apiKeyId"
    /\ present_and_truthy appConfig "apiKeySecret"
    /\ present_and_truthy appConfig "endpoint" in
  ((exists c, extractCredentials appConfig = Ok c) <-> complete)
  /\ (complete ->
      exists a s e,
        appConfig !! "apiKeyId" = Some a
        /\ appConfig !! "apiKeySecret" = Some s
        /\ appConfig !! "endpoint" = Some e
        /\ extractCredentials appConfig
           = Ok {| apiKeyId := a; apiKeySecret := s; endpoint := e |})
  /\ (~ complete ->
      extractCredentials appConfig
      = Throw (Error "Missing required Spacelift credentials in app config")).
Proof.
  intros complete. subst complete. rewrite <- !truthy_prop.
  unfold extractCredentials.
  destruct (truthy (prop appConfig "apiKeyId")) eqn:A;
    destruct (truthy (prop appConfig "apiKeySecret")) eqn:S;
    destruct (truthy (prop appConfig "endpoint")) eqn:E; simpl;
    try (split; [split; [intros (c & [=]) | intros (? & ? & ?); discriminate]
                |split; [intros (? & ? & ?); discriminate | reflexivity]]).
  split; [split; eauto|]. split; [|intros []; auto].
  intros _. apply truthy_prop in A as (a & Ha & _).
  apply truthy_prop in S as (s & Hs & _).
  apply truthy_prop in E as (e & He & _).
  exists a, s, e. unfold prop. rewrite Ha, Hs, He. auto.
Qed.

(** The two configurations of the specification's example. *)
Lemma extractCredentials_spec_witness :
  extractCredentials config_full
  = Ok {| apiKeyId := JStr "a"; apiKeySecret := JStr "b";
          endpoint := JStr "x.example.com" |}
  /\ extractCredentials config_no_endpoint
     = Throw (Error "Missing required Spacelift credentials in app config").
Proof.
  split.
  - destruct (extractCredentials_spec config_full) as (_ & H & _).
    destruct H as (a & s & e & Ha & Hs & He & ->).
    + repeat split; eexists; (split; [reflexivity | reflexivity]).
    + vm_compute in Ha, Hs, He. now simplify_eq.
  - apply (extractCredentials_spec config_no_endpoint).
    intros (_ & _ & (v & Hv & _)). vm_compute in Hv. discriminate.
Defined.

(** ** The cache key *)

Lemma includes_cons_false a s sub :
  includes (String a s) sub = false ->
  String.prefix sub (String a s) = false /\ includes s sub = false.
Proof. cbn [includes]. intros H. now apply orb_false_iff in H. Qed.

Lemma no_underscore_head a s :
  includes (String a s) "_" = false -> a <> "_"%char /\ includes s "_" = false.
Proof.
  intros H. apply includes_cons_false in H as [P I]. split; [|exact I].
  intros ->. simpl in P. now rewrite prefix_empty in P.
Qed.

(** Two strings without underscore, each followed by an underscore and a
    rest: equal results have equal parts. *)
Lemma underscore_split e1 : forall e2 k1 k2,
  includes e1 "_" = false -> includes e2 "_" = false ->
  e1 +:+ "_" +:+ k1 = e2 +:+ "_" +:+ k2 -> e1 = e2 /\ k1 = k2.
Proof.
  induction e1 as [|a e1 IH]; intros [|b e2] k1 k2 H1 H2 E.
  - now inversion E.
  - apply no_underscore_head in H2 as [Hb _]. inversion E. congruence.
  - apply no_underscore_head in H1 as [Ha _]. inversion E. congruence.
  - apply no_underscore_head in H1 as [_ H1].
    apply no_underscore_head in H2 as [_ H2].
    inversion E as [[Hab E']]. destruct (IH e2 k1 k2 H1 H2 E') as [-> ->].
    auto.
Qed.

Lemma getCacheKey_strings c e k :
  endpoint c = JStr e -> apiKeyId c = JStr k ->
  getCacheKey c = "spacelift_jwt_" +:+ e +:+ "_" +:+ k.
Proof. intros He Hk. unfold getCacheKey. now rewrite He, Hk. Qed.

(** C5, as the code has it.  [getCacheKey] is a function of the credentials
    (equal credentials give equal keys), and it separates distinct
    (endpoint, apiKeyId) pairs of strings whenever the endpoints contain no
    underscore. *)
Theorem getCacheKey_injective_without_underscore :
  (forall c1 c2, c1 = c2 -> getCacheKey c1 = getCacheKey c2)
  /\ (forall c1 c2 e1 k1 e2 k2,
        endpoint c1 = JStr e1 -> apiKeyId c1 = JStr k1 ->
        endpoint c2 = JStr e2 -> apiKeyId c2 = JStr k2 ->
        includes e1 "_" = false -> includes e2 "_" = false ->
        (e1, k1) <> (e2, k2) ->
        getCacheKey c1 <> getCacheKey c2).
Proof.
  split; [now intros c1 c2 ->|].
  intros c1 c2 e1 k1 e2 k2 E1 K1 E2 K2 U1 U2 Hne Heq.
  rewrite (getCacheKey_strings c1 e1 k1 E1 K1) in Heq.
  rewrite (getCacheKey_strings c2 e2 k2 E2 K2) in Heq.
  apply Hne.
  assert (e1 +:+ "_" +:+ k1 = e2 +:+ "_" +:+ k2) as Heq'.
  { vm_compute in Heq. now inversion Heq. }
  destruct (underscore_split e1 e2 k1 k2 U1 U2 Heq') as [-> ->].
  reflexivity.
Qed.

Lemma getCacheKey_injective_without_underscore_witness :
  getCacheKey {| apiKeyId := JStr "K1"; apiKeySecret := JStr "s";
                 endpoint := JStr "a.example.com" |}
  <> getCacheKey {| apiKeyId := JStr "K1"; apiKeySecret := JStr "s";
                    endpoint := JStr "b.example.com" |}.
Proof.
  apply (proj2 getCacheKey_injective_without_underscore _ _
           "a.example.com" "K1" "b.example.com" "K1");
    try reflexivity.
  discriminate.
Defined.

(** C5 as stated fails: with an underscore in the endpoint, two distinct
    (endpoint, apiKeyId) pairs share one key. *)
Lemma getCacheKey_collision :
  let c1 := {| apiKeyId := JStr "c"; apiKeySecret := JStr "s";
               endpoint := JStr "a_b" |} in
  let c2 := {| apiKeyId := JStr "b_c"; apiKeySecret := JStr "s";
               endpoint := JStr "a" |} in
  (endpoint c1, apiKeyId c1) <> (endpoint c2, apiKeyId c2)
  /\ getCacheKey c1 = getCacheKey c2
  /\ ~ (forall c1 c2 : SpaceliftCredentials,
          (endpoint c1, apiKeyId c1) <> (endpoint c2, apiKeyId c2) ->
          getCacheKey c1 <> getCacheKey c2).
Proof.
  simpl. split; [discriminate|]. split; [reflexivity|].
  intros H.
  apply (H {| apiKeyId := JStr "c"; apiKeySecret := JStr "s";
              endpoint := JStr "a_b" |}
           {| apiKeyId := JStr "b_c"; apiKeySecret := JStr "s";
              endpoint := JStr "a" |}); [discriminate | reflexivity].
Qed.

(** C6, as the code has it.  For credentials with endpoint [e] and key id
    [k] the cache key is [spacelift_jwt_{e}_{k}]; [getSpaceliftJWT] looks
    the token up under that key (a hit returns the stored jwt, a miss goes
    on to refresh) and a successful [refreshSpaceliftJWT] stores the token
    under that key. *)
Theorem cache_key_format c e k :
  endpoint c = JStr e -> apiKeyId c = JStr k ->
  let key := "spacelift_jwt_" +:+ e +:+ "_" +:+ k in
  getCacheKey c = key
  /\ (forall w entry,
        kv_app w !! key = Some entry ->
        getSpaceliftJWT c w
        = (Ok (cached_jwt (kv_value entry)), emit (EvKvGet key) w))
  /\ (forall w,
        kv_app w !! key = None ->
        getSpaceliftJWT c w
        = refreshSpaceliftJWT c (emit (EvKvGet key) w))
  /\ (forall w j w',
        refreshSpaceliftJWT c w = (Ok j, w') ->
        exists ttl,
          kv_app w'
          = <[key := {| kv_value := {| cached_jwt := j |}; kv_ttl := ttl |}]>
              (kv_app w)).
Proof.
  intros He Hk key. pose proof (getCacheKey_strings c e k He Hk) as K.
  fold key in K. split; [exact K|]. repeat split.
  - intros w entry Hl. unfold getSpaceliftJWT, kv_get.
    unfold mbind at 1. unfold M_bind at 1. rewrite K, Hl. reflexivity.
  - intros w Hl. unfold getSpaceliftJWT, kv_get.
    unfold mbind at 1. unfold M_bind at 1. rewrite K, Hl. reflexivity.
  - intros w j w' H. apply refreshSpaceliftJWT_inv in H.
    destruct H as (v & w1 & _ & _ & Hkv & _). rewrite K in Hkv. eauto.
Qed.

Lemma cache_key_format_witness :
  getCacheKey creds_example = "spacelift_jwt_x.example.com_K1".
Proof.
  apply (cache_key_format creds_example "x.example.com" "K1");
    reflexivity.
Defined.

(** C6 as stated fails: the key is not [jwt:{endpointHost}:{keyId}]. *)
Lemma cache_key_is_not_jwt_colon :
  spec_cache_key creds_example = "jwt:x.example.com:K1"
  /\ getCacheKey creds_example = "spacelift_jwt_x.example.com_K1"
  /\ getCacheKey creds_example <> spec_cache_key creds_example.
Proof. repeat split. discriminate. Qed.

(** ** The ttl of a stored token *)

(** C2.  When the login returns [(jwt, validUntil)] and [Date.now()]
    returns [ms], with [now = floor (ms / 1000)], [refreshSpaceliftJWT]
    returns [jwt] and stores it under the cache key with
    [ttl = max (validUntil - now - 300) 60]; that ttl is at least 60, it is
    100 for [validUntil = now + 400] and 60 for [validUntil = now + 50].
    The expiry and the clock are whole numbers in the range [0 .. 2^52):
    there every number line 88 and line 89 compute is an integer below
    2^53, which a JavaScript number holds exactly, so the arithmetic on
    [Z] is the arithmetic of the code. *)
Theorem refreshSpaceliftJWT_ttl c w j validUntil w1 :
  fetchNewJWT c w = (Ok (j, validUntil), w1) ->
  exact_range validUntil ->
  exact_range (clock w (clock_reads w)) ->
  let now := clock w (clock_reads w) `div` 1000 in
  let ttl := Z.max (validUntil - now - 300) 60 in
  exists w',
    refreshSpaceliftJWT c w = (Ok j, w')
    /\ kv_app w' !! getCacheKey c
       = Some {| kv_value := {| cached_jwt := j |}; kv_ttl := ttl |}
    /\ (exists rest, log w' = EvKvSet (getCacheKey c) {| cached_jwt := j |} ttl
                              :: rest)
    /\ 60 <= ttl
    /\ (validUntil = now + 400 -> ttl = 100)
    /\ (validUntil = now + 50 -> ttl = 60)
    /\ safe_integer now /\ safe_integer (validUntil - now)
    /\ safe_integer (validUntil - now - 300) /\ safe_integer ttl.
Proof.
  intros F Hv Hms now ttl.
  destruct (refreshSpaceliftJWT c w) as [res w'] eqn:R.
  pose proof (refreshSpaceliftJWT_inv c w res w' R) as I.
  destruct res as [j'|e].
  - destruct I as (v & w1' & F' & L & K & _). rewrite F in F'.
    simplify_eq. exists w'. split; [reflexivity|]. split.
    { rewrite K. apply lookup_insert_eq. }
    split; [eauto|].
    assert (0 <= now <= clock w (clock_reads w)) as Hnow.
    { unfold exact_range in Hms. subst now. split.
      - apply Z.div_pos; lia.
      - apply Z.div_le_upper_bound; lia. }
    unfold exact_range in Hv, Hms. unfold safe_integer. subst ttl.
    repeat split; lia.
  - destruct I as (F' & _). rewrite F in F'. discriminate.
Qed.

Lemma refreshSpaceliftJWT_ttl_witness :
  exists w',
    refreshSpaceliftJWT creds_example
      (world_example [login_ok "tok" 1700000400] []) = (Ok "tok", w')
    /\ kv_app w' !! getCacheKey creds_example
       = Some {| kv_value := {| cached_jwt := "tok" |}; kv_ttl := 100 |}.
Proof.
  destruct (refreshSpaceliftJWT_ttl creds_example
              (world_example [login_ok "tok" 1700000400] [])
              "tok" 1700000400
              (snd (fetchNewJWT creds_example
                      (world_example [login_ok "tok" 1700000400] []))))
    as (w' & R & K & _).
  - vm_compute. reflexivity.
  - unfold exact_range. lia.
  - unfold exact_range. simpl. lia.
  - exists w'. split; [exact R | exact K].
Defined.

(** ** Running a query *)

Section Execution.

Variables (c : SpaceliftCredentials) (q : string) (vars : option jsval).

Local Abbreviation exec := (executeSpaceliftQuery c q vars).
Local Abbreviation request := (makeRequest c q vars).

Lemma exec_token_fails w e w1 :
  getSpaceliftJWT c w = (Throw e, w1) -> exec w = (Throw e, w1).
Proof. intros H. unfold executeSpaceliftQuery. now apply bind_throw. Qed.

Section FirstRequest.

Variables (w : World) (token : string) (w1 : World).
Hypothesis Htoken : getSpaceliftJWT c w = (Ok token, w1).

Lemma exec_first_rejected e w2 :
  request token w1 = (Throw e, w2) -> exec w = (Throw e, w2).
Proof.
  intros H. unfold executeSpaceliftQuery.
  rewrite (bind_ok _ _ _ _ _ Htoken). now apply bind_throw.
Qed.

Section FirstResponse.

Variables (r : SpaceliftApiResponse jsval) (w2 : World).
Hypothesis Hfirst : request token w1 = (Ok r, w2).

Lemma exec_first_no_errors :
  errors r = None -> exec w = return_data r w2.
Proof.
  intros E. unfold executeSpaceliftQuery.
  rewrite (bind_ok _ _ _ _ _ Htoken), (bind_ok _ _ _ _ _ Hfirst).
  rewrite E. reflexivity.
Qed.

Lemma exec_first_other_errors errs :
  errors r = Some errs -> is_unauthorized errs = false ->
  exec w = (Throw (Error (graphql_error_message errs)), w2).
Proof.
  intros E U. unfold executeSpaceliftQuery.
  rewrite (bind_ok _ _ _ _ _ Htoken), (bind_ok _ _ _ _ _ Hfirst).
  rewrite E, U. reflexivity.
Qed.

Section Unauthorized.

Variable errs : list ApiError.
Hypothesis Herrs : errors r = Some errs.
Hypothesis Hmatch : is_unauthorized errs = true.

Lemma exec_unauthorized :
  exec w
  = ((token' ← refreshSpaceliftJWT c;
      result ← request token';
      match errors result with
      | Some errs' => throw (Error (graphql_error_message errs'))
      | None => mret result
      end) ≫= return_data) w2.
Proof.
  unfold executeSpaceliftQuery.
  rewrite (bind_ok _ _ _ _ _ Htoken), (bind_ok _ _ _ _ _ Hfirst).
  rewrite Herrs, Hmatch. reflexivity.
Qed.

Lemma exec_refresh_fails e w3 :
  refreshSpaceliftJWT c w2 = (Throw e, w3) ->
  exec w = (Throw e, w3).
Proof.
  intros R. rewrite exec_unauthorized.
  apply bind_throw. now apply bind_throw.
Qed.

Section Retry.

Variables (token' : string) (w3 : World).
Hypothesis Hrefresh : refreshSpaceliftJWT c w2 = (Ok token', w3).

Lemma exec_retry_rejected e w4 :
  request token' w3 = (Throw e, w4) -> exec w = (Throw e, w4).
Proof.
  intros R. rewrite exec_unauthorized. apply bind_throw.
  rewrite (bind_ok _ _ _ _ _ Hrefresh). now apply bind_throw.
Qed.

Lemma exec_retry_errors r' w4 errs' :
  request token' w3 = (Ok r', w4) -> errors r' = Some errs' ->
  exec w = (Throw (Error (graphql_error_message errs')), w4).
Proof.
  intros R E. rewrite exec_unauthorized. apply bind_throw.
  rewrite (bind_ok _ _ _ _ _ Hrefresh), (bind_ok _ _ _ _ _ R).
  rewrite E. reflexivity.
Qed.

Lemma exec_retry_no_errors r' w4 :
  request token' w3 = (Ok r', w4) -> errors r' = None ->
  exec w = return_data r' w4.
Proof.
  intros R E. rewrite exec_unauthorized.
  apply bind_ok.
  rewrite (bind_ok _ _ _ _ _ Hrefresh), (bind_ok _ _ _ _ _ R).
  rewrite E. reflexivity.
Qed.

End Retry.
End Unauthorized.
End FirstResponse.
End FirstRequest.
End Execution.

Lemma return_data_world r w : snd (return_data r w) = w.
Proof. unfold return_data. repeat case_match; reflexivity. Qed.

(** The requests made after the first response has arrived: one login
    exactly when the response matched, and one more query exactly when it
    matched and the refresh obtained a token. *)
Lemma requests_after_first_response c q vars w token w1 r w2 :
  getSpaceliftJWT c w = (Ok token, w1) ->
  makeRequest c q vars token w1 = (Ok r, w2) ->
  let w' := snd (executeSpaceliftQuery c q vars w) in
  login_count w' = (login_count w2 + if matched r then 1 else 0)%nat
  /\ query_count w'
     = (query_count w2
        + if matched r && refresh_succeeds c w2 then 1 else 0)%nat.
Proof.
  intros H1 H2 w'. subst w'. unfold matched, refresh_succeeds.
  destruct (errors r) as [errs|] eqn:E.
  2:{ rewrite (exec_first_no_errors c q vars w token w1 H1 r w2 H2 E).
      rewrite return_data_world. simpl. lia. }
  destruct (is_unauthorized errs) eqn:U.
  2:{ rewrite (exec_first_other_errors c q vars w token w1 H1 r w2 H2
                 errs E U). simpl. lia. }
  destruct (refreshSpaceliftJWT c w2) as [res w3] eqn:R.
  pose proof (refreshSpaceliftJWT_sent c w2 res w3 R) as (_ & _ & Q3 & L3).
  destruct res as [token'|e]; simpl.
  2:{ rewrite (exec_refresh_fails c q vars w token w1 H1 r w2 H2 errs E U
                 e w3 R). simpl. lia. }
  destruct (makeRequest c q vars token' w3) as [res' w4] eqn:R'.
  pose proof (makeRequest_sent c q vars token' w3 res' w4 R') as (Q4 & L4).
  destruct res' as [r'|e].
  2:{ rewrite (exec_retry_rejected c q vars w token w1 H1 r w2 H2 errs E U
                 token' w3 R e w4 R'). simpl. lia. }
  destruct (errors r') as [errs'|] eqn:E'.
  - rewrite (exec_retry_errors c q vars w token w1 H1 r w2 H2 errs E U
               token' w3 R r' w4 errs' R' E'). simpl. lia.
  - rewrite (exec_retry_no_errors c q vars w token w1 H1 r w2 H2 errs E U
               token' w3 R r' w4 R' E').
    rewrite return_data_world. lia.
Qed.

(** A run makes at most two query requests. *)
Lemma at_most_two_queries c q vars w :
  (query_count (snd (executeSpaceliftQuery c q vars w))
   <= query_count w + 2)%nat.
Proof.
  destruct (getSpaceliftJWT c w) as [res w1] eqn:H1.
  pose proof (getSpaceliftJWT_sent c w res w1 H1) as Q1.
  destruct res as [token|e].
  2:{ rewrite (exec_token_fails c q vars w e w1 H1). simpl. lia. }
  destruct (makeRequest c q vars token w1) as [res w2] eqn:H2.
  pose proof (makeRequest_sent c q vars token w1 res w2 H2) as (Q2 & _).
  destruct res as [r|e].
  2:{ rewrite (exec_first_rejected c q vars w token w1 H1 e w2 H2).
      simpl. lia. }
  pose proof (requests_after_first_response c q vars w token w1 r w2 H1 H2)
    as (_ & Q).
  simpl in Q. rewrite Q.
  destruct (matched r && refresh_succeeds c w2); lia.
Qed.

(** ** Retry on "unauthorized" *)

(** C1, as the code has it.  A run sends at most two query requests, that
    is, retries at most once.  Once the first response has arrived, a token
    refresh is started exactly when the response has errors whose messages,
    joined by single spaces and lower-cased, contain "unauthorized"; the
    retried request is sent exactly when, in addition, that refresh
    obtains a token.  A response whose errors do not match is thrown as a
    GraphQL error in the world the first response left: nothing more is
    requested or stored. *)
Theorem retry_only_on_unauthorized c q vars w :
  let w' := snd (executeSpaceliftQuery c q vars w) in
  (queries_sent w w' <= 2)%nat
  /\ forall token w1 r w2,
       getSpaceliftJWT c w = (Ok token, w1) ->
       makeRequest c q vars token w1 = (Ok r, w2) ->
       (queries_sent w2 w' <= 1)%nat
       /\ (logins_sent w2 w' <= 1)%nat
       /\ (logins_sent w2 w' = 1%nat <->
           exists errs,
             errors r = Some errs
             /\ includes (toLowerCase (join " " (map message errs)))
                  "unauthorized" = true)
       /\ (queries_sent w2 w' = 1%nat <->
           exists errs token' w3,
             errors r = Some errs
             /\ includes (toLowerCase (join " " (map message errs)))
                  "unauthorized" = true
             /\ refreshSpaceliftJWT c w2 = (Ok token', w3))
       /\ (forall errs,
             errors r = Some errs ->
             includes (toLowerCase (join " " (map message errs)))
               "unauthorized" = false ->
             executeSpaceliftQuery c q vars w
             = (Throw (Error (graphql_error_message errs)), w2)).
Proof.
  intros w'. split.
  { unfold queries_sent, w'.
    pose proof (at_most_two_queries c q vars w). lia. }
  intros token w1 r w2 H1 H2.
  pose proof (requests_after_first_response c q vars w token w1 r w2 H1 H2)
    as (L & Q).
  simpl in L, Q. fold w' in L, Q. unfold queries_sent, logins_sent.
  assert (matched r = true <->
          exists errs, errors r = Some errs
                       /\ includes (toLowerCase (join " " (map message errs)))
                            "unauthorized" = true) as M.
  { unfold matched. destruct (errors r) as [errs|].
    - split; [eauto | now intros (? & [= <-] & ?)].
    - split; [discriminate | now intros (? & [=] & _)]. }
  assert (refresh_succeeds c w2 = true <->
          exists token' w3, refreshSpaceliftJWT c w2 = (Ok token', w3)) as S.
  { unfold refresh_succeeds.
    destruct (refreshSpaceliftJWT c w2) as [[t|e] w3]; simpl.
    - split; eauto.
    - split; [discriminate | now intros (? & ? & [=])]. }
  repeat split.
  - destruct (matched r && refresh_succeeds c w2); lia.
  - destruct (matched r); lia.
  - intros E. apply M. destruct (matched r); [reflexivity | lia].
  - intros E. apply M in E. rewrite E in L. lia.
  - intros E.
    destruct (matched r) eqn:Em; [|simpl in Q; lia].
    destruct (refresh_succeeds c w2) eqn:Es; [|simpl in Q; lia].
    destruct (proj1 M eq_refl) as (errs & E1 & E2).
    destruct (proj1 S eq_refl) as (token' & w3 & E3). eauto 10.
  - intros (errs & token' & w3 & E1 & E2 & E3).
    assert (matched r = true) as Em by (apply M; eauto).
    assert (refresh_succeeds c w2 = true) as Es by (apply S; eauto).
    rewrite Em, Es in Q. simpl in Q. lia.
  - intros errs E U.
    exact (exec_first_other_errors c q vars w token w1 H1 r w2 H2 errs E U).
Qed.

Lemma retry_only_on_unauthorized_witness :
  fst (executeSpaceliftQuery creds_example "query" None
         (world_cached [] [query_errors [err "stack not found"]]))
  = Throw (Error ("GraphQL error:" +:+ nl +:+ " - stack not found" +:+ nl)).
Proof.
  destruct (retry_only_on_unauthorized creds_example "query" None
              (world_cached [] [query_errors [err "stack not found"]]))
    as (_ & H).
  pose (w := world_cached [] [query_errors [err "stack not found"]]).
  destruct (H "cached" (snd (getSpaceliftJWT creds_example w))
              (query_errors [err "stack not found"])
              (snd (executeSpaceliftQuery creds_example "query" None w)))
    as (_ & _ & _ & _ & T).
  - vm_compute. reflexivity.
  - vm_compute. reflexivity.
  - rewrite (T [err "stack not found"]); reflexivity.
Defined.

(** C1 as stated fails in two ways.  First run: the first response says
    "Unauthorized", the login made for the refresh is answered with errors;
    the run ends with the authentication error after one query request, so
    no retry occurs although the response matched.  Second run: the two
    messages "unauth" and "orized" concatenate to "unauthorized", but the
    code joins them with a space, finds no match and throws at once. *)
Lemma retry_claim_counterexample :
  (let w := world_cached [login_errors [err "invalid key"]]
              [query_errors [err "Unauthorized"]] in
   let run := executeSpaceliftQuery creds_example "query" None w in
   matched (query_errors [err "Unauthorized"]) = true
   /\ fst run = Throw (Error "Authentication failed: invalid key")
   /\ queries_sent w (snd run) = 1%nat)
  /\ (let errs := [err "unauth"; err "orized"] in
      let w := world_cached [login_ok "fresh" 1700003600]
                 [query_errors errs; query_errors []] in
      let run := executeSpaceliftQuery creds_example "query" None w in
      includes (toLowerCase (String.concat "" (map message errs)))
        "unauthorized" = true
      /\ fst run = Throw (Error ("GraphQL error:" +:+ nl +:+ " - unauth"
                                   +:+ nl +:+ " - orized" +:+ nl))
      /\ queries_sent w (snd run) = 1%nat
      /\ logins_sent w (snd run) = 0%nat).
Proof. vm_compute. repeat split. Qed.

(** C3, as the code has it.  When the first response has errors that match
    "unauthorized", the token is refreshed.  If the refresh fails, its
    error ends the run and no request is retried.  If it obtains a token,
    that token is the jwt the login has just returned, and exactly one
    more request is sent, carrying it; if the response to that request has
    errors, the run throws the GraphQL error rendered from them, whose
    text contains every one of their messages. *)
Theorem unauthorized_refresh_then_retry c q vars w token w1 r w2 errs :
  getSpaceliftJWT c w = (Ok token, w1) ->
  makeRequest c q vars token w1 = (Ok r, w2) ->
  errors r = Some errs ->
  includes (toLowerCase (join " " (map message errs))) "unauthorized" = true ->
  let run := executeSpaceliftQuery c q vars w in
  logins_sent w2 (snd run) = 1%nat
  /\ (forall e w3,
        refreshSpaceliftJWT c w2 = (Throw e, w3) ->
        run = (Throw e, w3) /\ queries_sent w2 (snd run) = 0%nat)
  /\ (forall token' w3,
        refreshSpaceliftJWT c w2 = (Ok token', w3) ->
        (exists v wl, fetchNewJWT c w2 = (Ok (token', v), wl))
        /\ queries_sent w2 (snd run) = 1%nat
        /\ exists res w4,
             makeRequest c q vars token' w3 = (res, w4)
             /\ log w4 = EvQuery (graphql_url c) token' q vars :: log w3
             /\ log (snd run) = log w4
             /\ forall r' errs',
                  res = Ok r' -> errors r' = Some errs' ->
                  run = (Throw (Error (graphql_error_message errs')), w4)
                  /\ forall e, In e errs' ->
                       includes (graphql_error_message errs') (message e)
                       = true).
Proof.
  intros H1 H2 E U run.
  pose proof (requests_after_first_response c q vars w token w1 r w2 H1 H2)
    as (L & Q).
  simpl in L, Q. fold run in L, Q.
  assert (matched r = true) as Em by (unfold matched; now rewrite E).
  rewrite Em in L, Q. unfold logins_sent, queries_sent.
  split; [lia|]. split.
  - intros e w3 R. split.
    + exact (exec_refresh_fails c q vars w token w1 H1 r w2 H2 errs E U
               e w3 R).
    + unfold refresh_succeeds in Q. rewrite R in Q. simpl in Q. lia.
  - intros token' w3 R. split; [|split].
    + apply refreshSpaceliftJWT_inv in R as (v & wl & F & _). eauto.
    + unfold refresh_succeeds in Q. rewrite R in Q. simpl in Q. lia.
    + destruct (makeRequest c q vars token' w3) as [res w4] eqn:R'.
      exists res, w4. split; [reflexivity|].
      pose proof (makeRequest_inv c q vars token' w3 res w4 R') as (Lg & _).
      split; [exact Lg|]. split.
      * subst run. destruct res as [r'|e].
        -- destruct (errors r') as [errs'|] eqn:E'.
           ++ now rewrite (exec_retry_errors c q vars w token w1 H1 r w2 H2
                             errs E U token' w3 R r' w4 errs' R' E').
           ++ rewrite (exec_retry_no_errors c q vars w token w1 H1 r w2 H2
                         errs E U token' w3 R r' w4 R' E').
              now rewrite return_data_world.
        -- now rewrite (exec_retry_rejected c q vars w token w1 H1 r w2 H2
                          errs E U token' w3 R e w4 R').
      * intros r' errs' -> E'. split.
        -- exact (exec_retry_errors c q vars w token w1 H1 r w2 H2 errs E U
                    token' w3 R r' w4 errs' R' E').
        -- intros e He. now apply graphql_error_message_includes.
Qed.

Lemma unauthorized_refresh_then_retry_witness :
  let w := world_cached [login_ok "fresh" 1700003600]
             [query_errors [err "Unauthorized"];
              query_errors [err "token rejected"]] in
  let run := executeSpaceliftQuery creds_example "query" None w in
  fst run = Throw (Error ("GraphQL error:" +:+ nl +:+ " - token rejected"
                            +:+ nl))
  /\ queries_sent w (snd run) = 2%nat.
Proof.
  intros w run.
  pose (w1 := snd (getSpaceliftJWT creds_example w)).
  pose (w2 := snd (makeRequest creds_example "query" None "cached" w1)).
  pose (w3 := snd (refreshSpaceliftJWT creds_example w2)).
  destruct (unauthorized_refresh_then_retry creds_example "query" None w
              "cached" w1 (query_errors [err "Unauthorized"]) w2
              [err "Unauthorized"])
    as (_ & _ & T); try (vm_compute; reflexivity).
  destruct (T "fresh" w3) as (_ & _ & res & w4 & Rq & _ & _ & F);
    [vm_compute; reflexivity|].
  split; [|vm_compute; reflexivity].
  vm_compute in Rq. injection Rq as <- <-.
  destruct (F (query_errors [err "token rejected"]) [err "token rejected"])
    as (Hrun & _); [reflexivity | reflexivity |].
  fold run in Hrun. rewrite Hrun. reflexivity.
Defined.

(** C3 as stated fails.  First run: the first response says "UNAUTHORIZED"
    and the login answers without a token; the run ends with the login's
    error and no request is retried.  Second run: the retried response
    fails with "boom"; the text thrown is rendered from the retried
    response and does not contain the message of the first one. *)
Lemma retried_request_counterexample :
  (let w := world_cached [login_without_user]
              [query_errors [err "UNAUTHORIZED"]; query_errors []] in
   let run := executeSpaceliftQuery creds_example "query" None w in
   matched (query_errors [err "UNAUTHORIZED"]) = true
   /\ fst run
      = Throw (Error "Failed to obtain JWT token or expiration time")
   /\ queries_sent w (snd run) = 1%nat)
  /\ (let w := world_cached [login_ok "fresh" 1700003600]
                 [query_errors [err "Unauthorized"];
                  query_errors [err "boom"]] in
      let run := executeSpaceliftQuery creds_example "query" None w in
      fst run = Throw (Error ("GraphQL error:" +:+ nl +:+ " - boom" +:+ nl))
      /\ queries_sent w (snd run) = 2%nat
      /\ includes ("GraphQL error:" +:+ nl +:+ " - boom" +:+ nl)
           "Unauthorized" = false).
Proof. vm_compute. repeat split. Qed.

(** ** The response that is kept *)

Lemma return_data_spec r w : returns_data_of r w (return_data r w).
Proof.
  unfold returns_data_of, return_data. repeat split.
  - now intros d -> ->.
  - now intros d -> ->.
  - now intros ->.
Qed.

(** C7, as the code has it.  On the path without errors, for the first
    response and for the retried one alike: data that is present and
    truthy is returned unchanged; data that is absent, or present but
    falsy, makes the run fail with "No data returned from Spacelift API";
    so does a response with neither errors nor data. *)
Theorem no_errors_path_returns_truthy_data c q vars w token w1 r w2 :
  getSpaceliftJWT c w = (Ok token, w1) ->
  makeRequest c q vars token w1 = (Ok r, w2) ->
  let run := executeSpaceliftQuery c q vars w in
  (errors r = None -> returns_data_of r w2 run)
  /\ (forall errs token' w3 r' w4,
        errors r = Some errs ->
        is_unauthorized errs = true ->
        refreshSpaceliftJWT c w2 = (Ok token', w3) ->
        makeRequest c q vars token' w3 = (Ok r', w4) ->
        errors r' = None ->
        returns_data_of r' w4 run).
Proof.
  intros H1 H2 run. subst run. split.
  - intros E. rewrite (exec_first_no_errors c q vars w token w1 H1 r w2 H2 E).
    apply return_data_spec.
  - intros errs token' w3 r' w4 E U R R' E'.
    rewrite (exec_retry_no_errors c q vars w token w1 H1 r w2 H2 errs E U
               token' w3 R r' w4 R' E').
    apply return_data_spec.
Qed.

Lemma no_errors_path_returns_truthy_data_witness :
  fst (executeSpaceliftQuery creds_example "query" None
         (world_cached [] [query_data stack_created]))
  = Ok stack_created.
Proof.
  pose (w := world_cached [] [query_data stack_created]).
  pose (w1 := snd (getSpaceliftJWT creds_example w)).
  pose (w2 := snd (makeRequest creds_example "query" None "cached" w1)).
  destruct (no_errors_path_returns_truthy_data creds_example "query" None w
              "cached" w1 (query_data stack_created) w2)
    as (H & _); [vm_compute; reflexivity | vm_compute; reflexivity |].
  destruct (H eq_refl) as (Hd & _).
  fold w. now rewrite (Hd stack_created eq_refl eq_refl).
Defined.

(** C7 as stated fails: data that is present but falsy is not returned.
    The responses [{"data": null}] and [{"data": 0}] carry data and no
    errors, and the run fails. *)
Lemma present_data_counterexample :
  (data (query_data JNull) = Some JNull
   /\ errors (query_data JNull) = None
   /\ fst (executeSpaceliftQuery creds_example "query" None
             (world_cached [] [query_data JNull]))
      = Throw (Error "No data returned from Spacelift API"))
  /\ (data (query_data (JNum 0)) = Some (JNum 0)
      /\ fst (executeSpaceliftQuery creds_example "query" None
                (world_cached [] [query_data (JNum 0)]))
         = Throw (Error "No data returned from Spacelift API")).
Proof. vm_compute. repeat split. Qed.

(** ** An empty list of errors *)

(** C10.  A response whose [errors] is present but empty counts as a
    failure whatever its [data]: the test of line 152 is on the presence
    of [errors], the joined messages are empty and do not match, and the
    run throws the GraphQL error without message lines.  The same holds
    for the retried response. *)
Theorem empty_errors_is_failure c q vars w token w1 r w2 :
  getSpaceliftJWT c w = (Ok token, w1) ->
  makeRequest c q vars token w1 = (Ok r, w2) ->
  let run := executeSpaceliftQuery c q vars w in
  (errors r = Some [] ->
   run = (Throw (Error ("GraphQL error:" +:+ nl +:+ nl)), w2))
  /\ (forall errs token' w3 r' w4,
        errors r = Some errs ->
        is_unauthorized errs = true ->
        refreshSpaceliftJWT c w2 = (Ok token', w3) ->
        makeRequest c q vars token' w3 = (Ok r', w4) ->
        errors r' = Some [] ->
        run = (Throw (Error ("GraphQL error:" +:+ nl +:+ nl)), w4)).
Proof.
  intros H1 H2 run. subst run. split.
  - intros E.
    exact (exec_first_other_errors c q vars w token w1 H1 r w2 H2 [] E
             eq_refl).
  - intros errs token' w3 r' w4 E U R R' E'.
    exact (exec_retry_errors c q vars w token w1 H1 r w2 H2 errs E U
             token' w3 R r' w4 [] R' E').
Qed.

Lemma empty_errors_is_failure_witness :
  fst (executeSpaceliftQuery creds_example "query" None
         (world_cached []
            [{| data := Some stack_created; errors := Some [] |}]))
  = Throw (Error ("GraphQL error:" +:+ nl +:+ nl)).
Proof.
  pose (w := world_cached []
               [{| data := Some stack_created; errors := Some [] |}]).
  pose (w1 := snd (getSpaceliftJWT creds_example w)).
  pose (w2 := snd (makeRequest creds_example "query" None "cached" w1)).
  destruct (empty_errors_is_failure creds_example "query" None w
              "cached" w1
              {| data := Some stack_created; errors := Some [] |} w2)
    as (H & _); [vm_compute; reflexivity | vm_compute; reflexivity |].
  fold w. now rewrite (H eq_refl).
Defined.

(** ** The text of a GraphQL error *)

Lemma imap_numbered_lines indent exts : forall n,
  imap (fun index '(key, value) =>
          indent +:+ pretty (index + n)%nat +:+ ". " +:+ key +:+ ": "
            +:+ value) exts
  = numbered_lines indent n exts.
Proof.
  induction exts as [|[key value] rest IH]; intros n; [reflexivity|].
  rewrite imap_cons. cbn [numbered_lines]. f_equal.
  rewrite <- (IH (S n)). apply imap_ext. intros i [k v] _. simpl.
  now replace (i + S n)%nat with (S (i + n)) by lia.
Qed.

Lemma formatExtensions_numbered exts :
  formatExtensions exts = join nl (numbered_lines "    " 1 exts).
Proof.
  unfold formatExtensions. f_equal. apply (imap_numbered_lines "    " exts 1).
Qed.

Lemma error_line_rendered e : error_line e = rendered_error "    " e.
Proof.
  unfold error_line, rendered_error. destruct (extensions e); [|reflexivity].
  now rewrite formatExtensions_numbered.
Qed.

Lemma graphql_error_message_rendered errs :
  graphql_error_message errs = rendered_message "    " errs.
Proof.
  unfold graphql_error_message, rendered_message.
  now rewrite (map_ext error_line (rendered_error "    ") error_line_rendered).
Qed.

(** C8, as the code has it.  Whenever the executor throws a GraphQL error
    for a list of errors (the errors of a first response that does not
    match, or those of the retried response), the message is
    "GraphQL error:", a newline, the lines of the errors joined by
    newlines, and a final newline.  An error without extensions gives the
    line " - {message}"; an error with extensions gives " - {message}:"
    and then, each on a line of its own, the entries numbered from 1 in
    entry order as "    {n}. {key}: {value}", indented by four spaces. *)
Theorem graphql_error_text c q vars w token w1 r w2 errs :
  getSpaceliftJWT c w = (Ok token, w1) ->
  makeRequest c q vars token w1 = (Ok r, w2) ->
  errors r = Some errs ->
  let run := executeSpaceliftQuery c q vars w in
  graphql_error_message errs = rendered_message "    " errs
  /\ (is_unauthorized errs = false ->
      run = (Throw (Error (rendered_message "    " errs)), w2))
  /\ (forall token' w3 r' w4 errs',
        is_unauthorized errs = true ->
        refreshSpaceliftJWT c w2 = (Ok token', w3) ->
        makeRequest c q vars token' w3 = (Ok r', w4) ->
        errors r' = Some errs' ->
        run = (Throw (Error (rendered_message "    " errs')), w4)).
Proof.
  intros H1 H2 E run. subst run.
  split; [apply graphql_error_message_rendered|]. split.
  - intros U. rewrite <- graphql_error_message_rendered.
    exact (exec_first_other_errors c q vars w token w1 H1 r w2 H2 errs E U).
  - intros token' w3 r' w4 errs' U R R' E'.
    rewrite <- graphql_error_message_rendered.
    exact (exec_retry_errors c q vars w token w1 H1 r w2 H2 errs E U
             token' w3 R r' w4 errs' R' E').
Qed.

Lemma graphql_error_text_witness :
  fst (executeSpaceliftQuery creds_example "query" None
         (world_cached [] [query_errors errs_example]))
  = Throw (Error ("GraphQL error:" +:+ nl
                  +:+ " - bad input:" +:+ nl
                  +:+ "    1. code: BAD_USER_INPUT" +:+ nl
                  +:+ "    2. field: id" +:+ nl
                  +:+ " - not found" +:+ nl)).
Proof.
  pose (w := world_cached [] [query_errors errs_example]).
  pose (w1 := snd (getSpaceliftJWT creds_example w)).
  pose (w2 := snd (makeRequest creds_example "query" None "cached" w1)).
  destruct (graphql_error_text creds_example "query" None w "cached" w1
              (query_errors errs_example) w2 errs_example)
    as (_ & H & _);
    [vm_compute; reflexivity | vm_compute; reflexivity | reflexivity |].
  fold w. now rewrite (H eq_refl).
Defined.

(** C8 as stated fails: the extension lines are indented by four spaces,
    so the text thrown is not the one built from lines of the form
    [{n}. {key}: {value}]. *)
Lemma extension_lines_counterexample :
  let errs := [ {| message := "bad input";
                   extensions := Some [("code", "BAD_USER_INPUT")] |} ] in
  graphql_error_message errs
  = "GraphQL error:" +:+ nl +:+ " - bad input:" +:+ nl
    +:+ "    1. code: BAD_USER_INPUT" +:+ nl
  /\ spec_graphql_error_message errs
     = "GraphQL error:" +:+ nl +:+ " - bad input:" +:+ nl
       +:+ "1. code: BAD_USER_INPUT" +:+ nl
  /\ graphql_error_message errs <> spec_graphql_error_message errs
  /\ fst (executeSpaceliftQuery creds_example "query" None
            (world_cached [] [query_errors errs]))
     <> Throw (Error (spec_graphql_error_message errs)).
Proof. vm_compute. repeat split; discriminate. Qed.

(** ** The block [createStackFromBlueprint] *)



(** The printer of numbers writes the decimal numeral. *)






(** On the plain values [js_String] is [ToString], and [ToString] has one
    result. *)






(** ** The login *)

(** X1.  [fetchNewJWT] returns [(j, v)] exactly when the endpoint answers
    the login, the answer has no [errors] field, and its
    [data.apiKeyUser] carries the non-empty jwt [j] and the non-zero
    expiry [v]. *)
Theorem fetchNewJWT_succeeds_iff c w j v :
  (exists w', fetchNewJWT c w = (Ok (j, v), w'))
  <-> exists r rest u,
        login_answers w = r :: rest
        /\ errors r = None
        /\ data r ≫= apiKeyUser = Some u
        /\ jwt u = Some j /\ validUntil u = Some v
        /\ j <> "" /\ v <> 0.
Proof.
  unfold fetchNewJWT, fetch_login. unfold mbind at 1. unfold M_bind at 1.
  simpl. split.
  - intros (w' & H). destruct (login_answers w) as [|r rest]; [discriminate|].
    exists r, rest. destruct (errors r) as [errs|]; [discriminate|].
    destruct (data r ≫= apiKeyUser) as [[[j'|] [v'|]]|]; try discriminate.
    unfold throw, mret, M_ret in H.
    destruct (String.eqb j' "") eqn:Ej; [discriminate|].
    destruct (v' =? 0)%Z eqn:Ev; [discriminate|]. simpl in H.
    injection H as -> -> _. eexists. repeat split.
    + now apply String.eqb_neq in Ej.
    + now apply Z.eqb_neq in Ev.
  - intros (r & rest & [j' v'] & -> & -> & -> & E1 & E2 & Hj & Hv).
    simpl in E1, E2. subst j' v'.
    apply String.eqb_neq in Hj. apply Z.eqb_neq in Hv. rewrite Hj, Hv.
    eexists. reflexivity.
Qed.

(** X2.  An answer to the login that has an [errors] field, be it empty
    and be the token present all the same, makes [fetchNewJWT] throw
    "Authentication failed: " followed by the messages joined by ", ";
    nothing is written to the store. *)
Theorem fetchNewJWT_errors_first c w r rest errs :
  login_answers w = r :: rest ->
  errors r = Some errs ->
  fst (fetchNewJWT c w)
  = Throw (Error ("Authentication failed: " +:+ join ", " (map message errs)))
  /\ kv_app (snd (fetchNewJWT c w)) = kv_app w
  /\ fst (refreshSpaceliftJWT c w)
     = Throw (Error ("Authentication failed: "
                     +:+ join ", " (map message errs)))
  /\ kv_app (snd (refreshSpaceliftJWT c w)) = kv_app w.
Proof.
  intros Hl He.
  assert (exists w', fetchNewJWT c w
            = (Throw (Error ("Authentication failed: "
                             +:+ join ", " (map message errs))), w')
          /\ kv_app w' = kv_app w) as (w' & F & K).
  { unfold fetchNewJWT, fetch_login. unfold mbind at 1. unfold M_bind at 1.
    simpl. rewrite Hl, He. eexists. split; reflexivity. }
  assert (refreshSpaceliftJWT c w
          = (Throw (Error ("Authentication failed: "
                           +:+ join ", " (map message errs))), w')) as R.
  { unfold refreshSpaceliftJWT. now apply bind_throw. }
  rewrite F, R. auto.
Qed.

Lemma fetchNewJWT_errors_first_witness :
  fst (refreshSpaceliftJWT creds_example
         (world_example
            [{| data := Some {| apiKeyUser :=
                                  Some {| jwt := Some "tok";
                                          validUntil := Some 1700003600 |} |};
                errors := Some [] |}] []))
  = Throw (Error "Authentication failed: ").
Proof.
  destruct (fetchNewJWT_errors_first creds_example
              (world_example
                 [{| data := Some {| apiKeyUser :=
                                       Some {| jwt := Some "tok";
                                               validUntil :=
                                                 Some 1700003600 |} |};
                     errors := Some [] |}] [])
              _ [] [] eq_refl eq_refl) as (_ & _ & R & _).
  exact R.
Defined.

Lemma fetchNewJWT_failure c w e w' :
  fetchNewJWT c w = (Throw e, w') -> login_failure e.
Proof.
  unfold fetchNewJWT, fetch_login, login_failure.
  unfold mbind at 1. unfold M_bind at 1. simpl. intros H.
  destruct (login_answers w) as [|r rest]; [left; congruence|].
  destruct (errors r) as [errs|].
  - right. left. exists errs. unfold throw in H. congruence.
  - right. right. unfold throw, mret, M_ret in H.
    repeat case_match; congruence.
Qed.

(** ** The token manager and the store *)

Lemma refreshSpaceliftJWT_failure c w e w' :
  refreshSpaceliftJWT c w = (Throw e, w') ->
  login_failure e /\ kv_app w' = kv_app w.
Proof.
  intros H. apply refreshSpaceliftJWT_inv in H as (F & _).
  split; [exact (fetchNewJWT_failure c w e w' F)|].
  now apply fetchNewJWT_log in F as (_ & K & _).
Qed.

Lemma refreshSpaceliftJWT_elsewhere c w res w' :
  refreshSpaceliftJWT c w = (res, w') -> same_store_elsewhere c w w'.
Proof.
  intros H key Hkey. destruct res as [j|e].
  - apply refreshSpaceliftJWT_inv in H as (v & w1 & _ & _ & K & _).
    rewrite K. now apply lookup_insert_ne.
  - apply refreshSpaceliftJWT_failure in H as (_ & K). now rewrite K.
Qed.

(** X3.  A refresh that obtains the token [j] leaves it in the store: the
    next [getSpaceliftJWT] returns [j] from the cache, with a single
    lookup and without any request. *)
Theorem refresh_then_get c w j w' :
  refreshSpaceliftJWT c w = (Ok j, w') ->
  getSpaceliftJWT c w' = (Ok j, emit (EvKvGet (getCacheKey c)) w').
Proof.
  intros H. apply refreshSpaceliftJWT_inv in H as (v & w1 & _ & _ & K & _).
  unfold getSpaceliftJWT, kv_get. unfold mbind at 1. unfold M_bind at 1.
  rewrite K, lookup_insert_eq. reflexivity.
Qed.

Lemma refresh_then_get_witness :
  fst (getSpaceliftJWT creds_example
         (snd (refreshSpaceliftJWT creds_example
                 (world_example [login_ok "tok" 1700000400] []))))
  = Ok "tok".
Proof.
  rewrite (refresh_then_get creds_example
             (world_example [login_ok "tok" 1700000400] []) "tok"
             (snd (refreshSpaceliftJWT creds_example
                     (world_example [login_ok "tok" 1700000400] []))));
    [reflexivity | vm_compute; reflexivity].
Defined.

(** X4.  [refreshSpaceliftJWT] writes at most the entry under the cache
    key of its credentials: every other entry of the store is as before,
    and when the refresh fails the whole store is as before, a token
    cached earlier included. *)
Theorem refresh_keeps_other_entries c w res w' :
  refreshSpaceliftJWT c w = (res, w') ->
  (forall key, key <> getCacheKey c -> kv_app w' !! key = kv_app w !! key)
  /\ (forall e, res = Throw e -> kv_app w' = kv_app w).
Proof.
  intros H. split.
  - exact (refreshSpaceliftJWT_elsewhere c w res w' H).
  - intros e ->. now apply refreshSpaceliftJWT_failure in H.
Qed.

Lemma refresh_keeps_other_entries_witness :
  kv_app (snd (refreshSpaceliftJWT creds_example
                 (world_cached [login_without_user] [])))
  = kv_app (world_cached [login_without_user] []).
Proof.
  destruct (refresh_keeps_other_entries creds_example
              (world_cached [login_without_user] [])
              (fst (refreshSpaceliftJWT creds_example
                      (world_cached [login_without_user] [])))
              (snd (refreshSpaceliftJWT creds_example
                      (world_cached [login_without_user] []))))
    as (_ & H); [vm_compute; reflexivity|].
  apply (H (Error "Failed to obtain JWT token or expiration time")).
  vm_compute. reflexivity.
Defined.



(** ** Whole runs of the executor *)

Lemma exec_has_path c q vars w :
  exec_path c q vars w (executeSpaceliftQuery c q vars w).
Proof.
  destruct (getSpaceliftJWT c w) as [res w1] eqn:H1.
  destruct res as [token|e].
  2:{ rewrite (exec_token_fails c q vars w e w1 H1). now constructor. }
  destruct (makeRequest c q vars token w1) as [res w2] eqn:H2.
  destruct res as [r|e].
  2:{ rewrite (exec_first_rejected c q vars w token w1 H1 e w2 H2).
      eapply PathFirstRejected; eassumption. }
  destruct (errors r) as [errs|] eqn:E.
  2:{ rewrite (exec_first_no_errors c q vars w token w1 H1 r w2 H2 E).
      eapply PathNoErrors; eassumption. }
  destruct (is_unauthorized errs) eqn:U.
  2:{ rewrite (exec_first_other_errors c q vars w token w1 H1 r w2 H2
                 errs E U).
      eapply PathOtherErrors; eassumption. }
  destruct (refreshSpaceliftJWT c w2) as [res w3] eqn:R.
  destruct res as [token'|e].
  2:{ rewrite (exec_refresh_fails c q vars w token w1 H1 r w2 H2 errs E U
                 e w3 R).
      eapply PathRefreshFails; eassumption. }
  destruct (makeRequest c q vars token' w3) as [res' w4] eqn:R'.
  destruct res' as [r'|e].
  2:{ rewrite (exec_retry_rejected c q vars w token w1 H1 r w2 H2 errs E U
                 token' w3 R e w4 R').
      eapply PathRetryRejected; eassumption. }
  destruct (errors r') as [errs'|] eqn:E'.
  - rewrite (exec_retry_errors c q vars w token w1 H1 r w2 H2 errs E U
               token' w3 R r' w4 errs' R' E').
    eapply PathRetryErrors; eassumption.
  - rewrite (exec_retry_no_errors c q vars w token w1 H1 r w2 H2 errs E U
               token' w3 R r' w4 R' E').
    eapply PathRetryNoErrors; eassumption.
Qed.

Lemma return_data_result r w :
  return_data r w = (fst (return_data r w), w).
Proof. unfold return_data. repeat case_match; reflexivity. Qed.

Section Continues.

Variables (c : SpaceliftCredentials) (q : string) (vars : option jsval).

Lemma continues_refl w : continues c q vars w w.
Proof. exists []. split; [reflexivity | constructor]. Qed.

Lemma continues_trans w1 w2 w3 :
  continues c q vars w1 w2 -> continues c q vars w2 w3 ->
  continues c q vars w1 w3.
Proof.
  intros (n1 & L1 & F1) (n2 & L2 & F2). exists (n2 ++ n1)%list. split.
  - rewrite L2, L1. apply List.app_assoc.
  - apply Forall_app. auto.
Qed.

Lemma refreshSpaceliftJWT_continues w res w' :
  refreshSpaceliftJWT c w = (res, w') -> continues c q vars w w'.
Proof.
  intros H. apply refreshSpaceliftJWT_inv in H. destruct res as [j|e].
  - destruct H as (v & w1 & _ & L & _). eexists [_; _]. split; [exact L|].
    repeat constructor; simpl; auto. lia.
  - destruct H as (_ & L). eexists [_]. split; [exact L|].
    repeat constructor; simpl; auto.
Qed.

Lemma getSpaceliftJWT_continues w res w' :
  getSpaceliftJWT c w = (res, w') -> continues c q vars w w'.
Proof.
  intros H.
  assert (continues c q vars w (emit (EvKvGet (getCacheKey c)) w)) as G.
  { eexists [_]. split; [reflexivity|]. repeat constructor. }
  apply getSpaceliftJWT_inv in H as [(e & _ & _ & ->)|(_ & H)]; [exact G|].
  eapply continues_trans; [exact G|].
  exact (refreshSpaceliftJWT_continues _ _ _ H).
Qed.

Lemma makeRequest_continues token w res w' :
  makeRequest c q vars token w = (res, w') -> continues c q vars w w'.
Proof.
  intros H. apply makeRequest_inv in H as (L & _).
  eexists [_]. split; [exact L|]. repeat constructor.
Qed.

End Continues.

Lemma exec_continues c q vars w :
  continues c q vars w (snd (executeSpaceliftQuery c q vars w)).
Proof.
  pose proof (getSpaceliftJWT_continues c q vars) as G.
  pose proof (makeRequest_continues c q vars) as Rq.
  pose proof (refreshSpaceliftJWT_continues c q vars) as Rf.
  pose proof (continues_trans c q vars) as T.
  destruct (exec_has_path c q vars w); try rewrite return_data_world;
    simpl; eauto 8.
Qed.

(** X7.  Every event a run of [executeSpaceliftQuery] logs is one of its
    own: the lookups and writes are under the cache key of the
    credentials, every write has a ttl of at least 60, the logins carry the
    credentials' id and secret, every query request (the retried one too)
    goes to [https://{endpoint}/graphql] with the query and variables
    passed in, and nothing is published. *)
Theorem run_logs_only_its_events c q vars w :
  exists new : list Event,
    log (snd (executeSpaceliftQuery c q vars w)) = (new ++ log w)%list
    /\ Forall (event_of_run c q vars) new.
Proof. exact (exec_continues c q vars w). Qed.

Lemma makeRequest_answer c q vars token w r w' :
  makeRequest c q vars token w = (Ok r, w') ->
  query_answers w = r :: query_answers w'.
Proof.
  unfold makeRequest, fetch_query. simpl.
  destruct (query_answers w); [congruence|]. now intros [= -> <-].
Qed.

Lemma refreshSpaceliftJWT_answers c w res w' :
  refreshSpaceliftJWT c w = (res, w') -> query_answers w' = query_answers w.
Proof.
  intros H. apply refreshSpaceliftJWT_inv in H. destruct res as [j|e].
  - now destruct H as (v & w1 & _ & _ & _ & Q).
  - destruct H as (F & _).
    now apply fetchNewJWT_log in F as (_ & _ & _ & _ & Q).
Qed.

Lemma getSpaceliftJWT_answers c w res w' :
  getSpaceliftJWT c w = (res, w') -> query_answers w' = query_answers w.
Proof.
  intros H. apply getSpaceliftJWT_inv in H as [(e & _ & _ & ->)|(_ & H)].
  - reflexivity.
  - now apply refreshSpaceliftJWT_answers in H.
Qed.

Lemma return_data_ok r w d w' :
  return_data r w = (Ok d, w') ->
  data r = Some d /\ truthy d = true /\ w' = w.
Proof.
  unfold return_data, mret, M_ret, throw. intros H.
  destruct (data r) as [x|]; [|discriminate].
  destruct (truthy x) eqn:T; [|discriminate]. now injection H as -> ->.
Qed.

(** X8.  When [executeSpaceliftQuery] returns a value, that value is
    truthy and is the [data] of an answer of the endpoint that carried no
    [errors]: the run never returns [null], [false], [0] or the empty
    string, and never returns the data of an answer with errors. *)
Theorem run_returns_truthy_data c q vars w d w' :
  executeSpaceliftQuery c q vars w = (Ok d, w') ->
  truthy d = true
  /\ exists r, In r (query_answers w) /\ errors r = None /\ data r = Some d.
Proof.
  intros H. pose proof (exec_has_path c q vars w) as P. rewrite H in P.
  inversion P as
    [ | | token w1 r w2 H1 H2 E Hr
      | | |
      | | token w1 r w2 errs token' w3 r' w4 H1 H2 E U R R' E' Hr ].
  - apply return_data_ok in Hr as (D & T & _).
    split; [exact T|]. exists r. split; [|auto].
    apply makeRequest_answer in H2.
    rewrite <- (getSpaceliftJWT_answers c w _ w1 H1), H2. now left.
  - apply return_data_ok in Hr as (D & T & _).
    split; [exact T|]. exists r'. split; [|auto].
    apply makeRequest_answer in H2. apply makeRequest_answer in R'.
    rewrite <- (getSpaceliftJWT_answers c w _ w1 H1), H2.
    rewrite <- (refreshSpaceliftJWT_answers c w2 _ w3 R), R'.
    right. now left.
Qed.

Lemma run_returns_truthy_data_witness :
  truthy stack_created = true.
Proof.
  apply (run_returns_truthy_data creds_example "query" None
           (world_cached [] [query_data stack_created]) stack_created
           (snd (executeSpaceliftQuery creds_example "query" None
                   (world_cached [] [query_data stack_created])))).
  vm_compute. reflexivity.
Defined.

Lemma steady_refl c w : steady c w w.
Proof. repeat split; auto. Qed.

Lemma steady_trans c w1 w2 w3 :
  steady c w1 w2 -> steady c w2 w3 -> steady c w1 w3.
Proof.
  intros (E1 & L1 & K1) (E2 & L2 & K2). repeat split.
  - intros key Hk. now rewrite (E2 key Hk), (E1 key Hk).
  - lia.
  - intros H. rewrite K2 by lia. apply K1. lia.
Qed.

Lemma refreshSpaceliftJWT_steady c w res w' :
  refreshSpaceliftJWT c w = (res, w') -> steady c w w'.
Proof.
  intros H.
  pose proof (refreshSpaceliftJWT_sent c w res w' H) as (_ & _ & _ & L).
  repeat split.
  - exact (refreshSpaceliftJWT_elsewhere c w res w' H).
  - lia.
  - lia.
Qed.

Lemma getSpaceliftJWT_steady c w res w' :
  getSpaceliftJWT c w = (res, w') -> steady c w w'.
Proof.
  assert (steady c w (emit (EvKvGet (getCacheKey c)) w)) as G.
  { repeat split; auto. }
  intros H. apply getSpaceliftJWT_inv in H as [(e & _ & _ & ->)|(_ & H)].
  - exact G.
  - apply refreshSpaceliftJWT_steady in H.
    exact (steady_trans c _ _ _ G H).
Qed.

Lemma makeRequest_steady c q vars token w res w' :
  makeRequest c q vars token w = (res, w') -> steady c w w'.
Proof.
  intros H. pose proof (makeRequest_sent c q vars token w res w' H) as (_ & L).
  apply makeRequest_inv in H as (_ & K & _). repeat split.
  - intros key _. now rewrite K.
  - lia.
  - auto.
Qed.

Lemma exec_steady c q vars w :
  steady c w (snd (executeSpaceliftQuery c q vars w)).
Proof.
  pose proof (getSpaceliftJWT_steady c) as G.
  pose proof (makeRequest_steady c q vars) as Rq.
  pose proof (refreshSpaceliftJWT_steady c) as Rf.
  pose proof (steady_trans c) as T.
  destruct (exec_has_path c q vars w); try rewrite return_data_world;
    simpl; eauto 8.
Qed.

(** X10.  A run of [executeSpaceliftQuery] leaves every entry of the store
    other than the one under the cache key of its credentials as it was;
    and a run that makes no login request leaves the whole store as it
    was. *)
Theorem run_keeps_the_store c q vars w :
  let w' := snd (executeSpaceliftQuery c q vars w) in
  (forall key, key <> getCacheKey c -> kv_app w' !! key = kv_app w !! key)
  /\ (logins_sent w w' = 0%nat -> kv_app w' = kv_app w).
Proof.
  intros w'. destruct (exec_steady c q vars w) as (E & L & K).
  fold w' in E, L, K. split; [exact E|].
  unfold logins_sent. intros H. apply K. lia.
Qed.

Lemma run_keeps_the_store_witness :
  kv_app (snd (executeSpaceliftQuery creds_example "query" None
                 (world_cached [] [query_data stack_created])))
  = kv_app (world_cached [] [query_data stack_created]).
Proof.
  apply (run_keeps_the_store creds_example "query" None
           (world_cached [] [query_data stack_created])).
  vm_compute. reflexivity.
Defined.

Lemma getSpaceliftJWT_logins c w res w' :
  getSpaceliftJWT c w = (res, w') ->
  login_count w'
  = (login_count w
     + match kv_app w !! getCacheKey c with Some _ => 0 | None => 1 end)%nat.
Proof.
  intros H. apply getSpaceliftJWT_inv in H as [(e & -> & _ & ->)|(-> & H)].
  - unfold login_count. simpl. lia.
  - apply refreshSpaceliftJWT_sent in H as (_ & _ & _ & L). rewrite L.
    unfold login_count. simpl. lia.
Qed.

(** X11.  A run of [executeSpaceliftQuery] makes at most two login
    requests: one when the cache has no token, one when the first response
    is unauthorized.  With a cached token it makes at most one. *)
Theorem run_logins_bound c q vars w :
  let w' := snd (executeSpaceliftQuery c q vars w) in
  (logins_sent w w' <= 2)%nat
  /\ (is_Some (kv_app w !! getCacheKey c) -> (logins_sent w w' <= 1)%nat).
Proof.
  intros w'. unfold logins_sent.
  assert (login_count w'
          <= login_count w
             + match kv_app w !! getCacheKey c with
               | Some _ => 0 | None => 1 end + 1)%nat as B.
  { subst w'. destruct (getSpaceliftJWT c w) as [res w1] eqn:H1.
    pose proof (getSpaceliftJWT_logins c w res w1 H1) as L1.
    destruct res as [token|e].
    2:{ rewrite (exec_token_fails c q vars w e w1 H1). simpl. lia. }
    destruct (makeRequest c q vars token w1) as [res w2] eqn:H2.
    pose proof (makeRequest_sent c q vars token w1 res w2 H2) as (_ & L2).
    destruct res as [r|e].
    2:{ rewrite (exec_first_rejected c q vars w token w1 H1 e w2 H2).
        simpl. lia. }
    pose proof (requests_after_first_response c q vars w token w1 r w2
                  H1 H2) as (L & _).
    simpl in L. rewrite L. destruct (matched r); lia. }
  split.
  - destruct (kv_app w !! getCacheKey c); lia.
  - intros [x Hx]. rewrite Hx in B. lia.
Qed.

Lemma run_logins_bound_witness :
  (logins_sent
     (world_cached [login_ok "fresh" 1700003600]
        [query_errors [err "Unauthorized"]; query_data stack_created])
     (snd (executeSpaceliftQuery creds_example "query" None
             (world_cached [login_ok "fresh" 1700003600]
                [query_errors [err "Unauthorized"];
                 query_data stack_created])))
   <= 1)%nat.
Proof.
  apply (run_logins_bound creds_example "query" None
           (world_cached [login_ok "fresh" 1700003600]
              [query_errors [err "Unauthorized"];
               query_data stack_created])).
  eexists. vm_compute. reflexivity.
Defined.

(** X12.  After an unauthorized first response and a refresh that obtains
    the token [token'], the store holds [token'] under the cache key when
    the run ends, however the retried request turns out: the token that
    was rejected is no longer served, and the next [getSpaceliftJWT]
    returns [token'] from the cache. *)
Theorem unauthorized_replaces_cached_token c q vars w token w1 r w2 errs
    token' w3 :
  getSpaceliftJWT c w = (Ok token, w1) ->
  makeRequest c q vars token w1 = (Ok r, w2) ->
  errors r = Some errs ->
  is_unauthorized errs = true ->
  refreshSpaceliftJWT c w2 = (Ok token', w3) ->
  let w' := snd (executeSpaceliftQuery c q vars w) in
  (exists ttl,
     kv_app w' !! getCacheKey c
     = Some {| kv_value := {| cached_jwt := token' |}; kv_ttl := ttl |}
     /\ 60 <= ttl)
  /\ getSpaceliftJWT c w' = (Ok token', emit (EvKvGet (getCacheKey c)) w').
Proof.
  intros H1 H2 E U R w'.
  assert (kv_app w' = kv_app w3) as K.
  { subst w'. destruct (makeRequest c q vars token' w3) as [res w4] eqn:R'.
    pose proof (makeRequest_inv c q vars token' w3 res w4 R') as (_ & K & _).
    destruct res as [r'|e].
    - destruct (errors r') as [errs'|] eqn:E'.
      + now rewrite (exec_retry_errors c q vars w token w1 H1 r w2 H2 errs E U
                       token' w3 R r' w4 errs' R' E').
      + rewrite (exec_retry_no_errors c q vars w token w1 H1 r w2 H2 errs E U
                   token' w3 R r' w4 R' E').
        now rewrite return_data_world.
    - now rewrite (exec_retry_rejected c q vars w token w1 H1 r w2 H2 errs E U
                     token' w3 R e w4 R'). }
  apply refreshSpaceliftJWT_inv in R as (v & wl & _ & _ & K3 & _).
  assert (kv_app w' !! getCacheKey c
          = Some {| kv_value := {| cached_jwt := token' |};
                    kv_ttl := Z.max (v - clock w2 (clock_reads w2) `div` 1000
                                     - 300) 60 |}) as Hl.
  { rewrite K, K3. apply lookup_insert_eq. }
  split.
  - eexists. split; [exact Hl | lia].
  - unfold getSpaceliftJWT, kv_get. unfold mbind at 1. unfold M_bind at 1.
    rewrite Hl. reflexivity.
Qed.

Lemma unauthorized_replaces_cached_token_witness :
  let w := world_cached [login_ok "fresh" 1700003600]
             [query_errors [err "Unauthorized"];
              query_errors [err "token rejected"]] in
  fst (getSpaceliftJWT creds_example
         (snd (executeSpaceliftQuery creds_example "query" None w)))
  = Ok "fresh".
Proof.
  intros w.
  pose (w1 := snd (getSpaceliftJWT creds_example w)).
  pose (w2 := snd (makeRequest creds_example "query" None "cached" w1)).
  pose (w3 := snd (refreshSpaceliftJWT creds_example w2)).
  destruct (unauthorized_replaces_cached_token creds_example "query" None w
              "cached" w1 (query_errors [err "Unauthorized"]) w2
              [err "Unauthorized"] "fresh" w3) as (_ & G);
    [vm_compute; reflexivity .. |].
  now rewrite G.
Defined.

(** ** The test for "unauthorized", message by message *)

Lemma toLowerCase_app a b :
  toLowerCase (a +:+ b) = toLowerCase a +:+ toLowerCase b.
Proof.
  induction a as [|x a IH]; [reflexivity|].
  change (String (lower_ascii x) (toLowerCase (a +:+ b))
          = String (lower_ascii x) (toLowerCase a +:+ toLowerCase b)).
  now rewrite IH.
Qed.

Lemma no_char_head c a s :
  includes (String a s) (String c "") = false ->
  c <> a /\ includes s (String c "") = false.
Proof.
  intros H. apply includes_cons_false in H as [P I]. split; [|exact I].
  intros ->. simpl in P. destruct (ascii_dec a a); [|congruence].
  now rewrite prefix_empty in P.
Qed.

(** A separator that does not occur in [sub] cannot take part in an
    occurrence of [sub]. *)
Lemma prefix_before_separator c b sub : forall a,
  includes sub (String c "") = false ->
  String.prefix sub (a +:+ String c b) = String.prefix sub a.
Proof.
  induction sub as [|s sub IH]; intros a H.
  - now rewrite !prefix_empty.
  - apply no_char_head in H as [Hc H]. destruct a as [|x a].
    + change (String.prefix (String s sub) (String c b)
              = String.prefix (String s sub) "").
      simpl. destruct (ascii_dec s c); congruence.
    + change (String.prefix (String s sub) (String x (a +:+ String c b))
              = String.prefix (String s sub) (String x a)).
      simpl. destruct (ascii_dec s x); [now apply IH | reflexivity].
Qed.

Lemma includes_across_separator c s sub a b :
  includes (String s sub) (String c "") = false ->
  includes (a +:+ String c b) (String s sub)
  = includes a (String s sub) || includes b (String s sub).
Proof.
  intros H. induction a as [|x a IH].
  - change (includes (String c b) (String s sub)
            = includes "" (String s sub) || includes b (String s sub)).
    cbn [includes].
    rewrite (prefix_before_separator c b (String s sub) "" H : 
               String.prefix (String s sub) (String c b) = _).
    reflexivity.
  - change (includes (String x (a +:+ String c b)) (String s sub)
            = includes (String x a) (String s sub)
              || includes b (String s sub)).
    cbn [includes]. rewrite IH.
    rewrite (prefix_before_separator c b (String s sub) (String x a) H :
               String.prefix (String s sub) (String x (a +:+ String c b))
               = _).
    now rewrite orb_assoc.
Qed.

(** X13.  The test of lines 153 to 158 holds exactly when some single
    message contains "unauthorized" in some mix of upper and lower case
    ASCII letters: joining the messages with spaces never makes a match
    out of the end of one message and the start of the next. *)
Theorem is_unauthorized_some_message errs :
  is_unauthorized errs = some_message_unauthorized errs.
Proof.
  unfold is_unauthorized, some_message_unauthorized, join.
  induction errs as [|e errs IH]; [reflexivity|].
  destruct errs as [|e' errs].
  - simpl. now rewrite orb_false_r.
  - change (includes
              (toLowerCase
                 (message e +:+ " "
                    +:+ String.concat " " (map message (e' :: errs))))
              "unauthorized"
            = includes (toLowerCase (message e)) "unauthorized"
              || existsb (fun e => includes (toLowerCase (message e))
                                     "unauthorized") (e' :: errs)).
    rewrite <- IH, !toLowerCase_app.
    apply (includes_across_separator " "%char). reflexivity.
Qed.

(** ** Keys on one endpoint *)

Lemma append_cancel_l a : forall x y, a +:+ x = a +:+ y -> x = y.
Proof.
  induction a as [|c a IH]; intros x y H; [exact H|].
  apply IH. now inversion H.
Qed.

(** X14.  On one endpoint, two credentials share a cache key exactly when
    they have the same key id; the secret plays no part.  So two API keys
    of one account never read each other's token, and a rotated secret
    keeps finding the token cached for the old one. *)
Theorem getCacheKey_same_endpoint c1 c2 e k1 k2 :
  endpoint c1 = JStr e -> endpoint c2 = JStr e ->
  apiKeyId c1 = JStr k1 -> apiKeyId c2 = JStr k2 ->
  getCacheKey c1 = getCacheKey c2 <-> k1 = k2.
Proof.
  intros E1 E2 K1 K2.
  rewrite (getCacheKey_strings c1 e k1 E1 K1).
  rewrite (getCacheKey_strings c2 e k2 E2 K2). split.
  - intros H. apply (append_cancel_l "spacelift_jwt_") in H.
    apply (append_cancel_l e) in H. now apply (append_cancel_l "_") in H.
  - now intros ->.
Qed.

Lemma getCacheKey_same_endpoint_witness :
  getCacheKey creds_example
  = getCacheKey {| apiKeyId := JStr "K1"; apiKeySecret := JStr "rotated";
                   endpoint := JStr "x.example.com" |}.
Proof.
  apply (getCacheKey_same_endpoint creds_example
           {| apiKeyId := JStr "K1"; apiKeySecret := JStr "rotated";
              endpoint := JStr "x.example.com" |}
           "x.example.com" "K1" "K1"); reflexivity.
Defined.

(** ** The handler of the block *)




Lemma continues_no_emit c q vars w w' :
  continues c q vars w w' -> emit_count w' = emit_count w.
Proof.
  intros (new & L & F). unfold emit_count. rewrite L.
  rewrite List.filter_app, List.length_app.
  assert (List.filter is_emit new = []) as ->; [|reflexivity].
  clear L. induction F as [|ev new Hev F IH]; [reflexivity|].
  simpl. rewrite IH. destruct ev; simpl in *; try reflexivity. contradiction.
Qed.

Lemma emit_created_count result w :
  emit_count (snd (emit_created result w))
  = (emit_count w
     + match fst (emit_created result w) with Ok _ => 1 | Throw _ => 0 end)%nat.
Proof.
  unfold emit_created, lift, events_emit, mbind, M_bind, emit_count.
  destruct (js_get result "blueprintCreateStack") as [created|e];
    [|simpl; lia].
  destruct (js_get created "stackIds") as [stackIds|e]; [|simpl; lia].
  destruct (js_get created "runIds") as [runIds|e]; simpl; lia.
Qed.

(** X16.  The handler publishes exactly one event when it succeeds and
    none when it throws, whatever made it throw (missing credentials, a
    failed query, or data without [blueprintCreateStack]). *)
Theorem onEvent_emits_once_on_success input w :
  let run := onEvent input w in
  emit_count (snd run)
  = (emit_count w + match fst run with Ok _ => 1 | Throw _ => 0 end)%nat.
Proof.
  intros run. subst run. unfold onEvent.
  destruct (extractCredentials (app_config input)) as [credentials|e].
  2:{ simpl. lia. }
  change ((lift (Ok credentials) ≫= _) w) with
    ((executeSpaceliftQuery credentials CREATE_STACK_FROM_BLUEPRINT_MUTATION
        (Some (createVariables (event_inputConfig input)))
      ≫= emit_created) w).
  pose proof (exec_continues credentials CREATE_STACK_FROM_BLUEPRINT_MUTATION
                (Some (createVariables (event_inputConfig input))) w) as C.
  apply continues_no_emit in C.
  destruct (executeSpaceliftQuery credentials
              CREATE_STACK_FROM_BLUEPRINT_MUTATION
              (Some (createVariables (event_inputConfig input))) w)
    as [res w'] eqn:X.
  simpl in C. destruct res as [result|e].
  - rewrite (bind_ok _ _ _ _ _ X), emit_created_count. lia.
  - rewrite (bind_throw _ _ _ _ _ X). simpl. lia.
Qed.

(** X17.  When the query succeeds with data that has no
    [blueprintCreateStack] (or has [null] there), the handler throws a
    [TypeError] after the request was made, and publishes nothing. *)
Theorem onEvent_data_without_result input w credentials result w' v :
  extractCredentials (app_config input) = Ok credentials ->
  executeSpaceliftQuery credentials CREATE_STACK_FROM_BLUEPRINT_MUTATION
    (Some (createVariables (event_inputConfig input))) w = (Ok result, w') ->
  js_get result "blueprintCreateStack" = Ok v ->
  v = JUndefined \/ v = JNull ->
  onEvent input w = (Throw TypeError, w').
Proof.
  intros Hc Hq Hg Hv. unfold onEvent. rewrite Hc.
  change ((lift (Ok credentials) ≫= _) w) with
    ((executeSpaceliftQuery credentials CREATE_STACK_FROM_BLUEPRINT_MUTATION
        (Some (createVariables (event_inputConfig input)))
      ≫= emit_created) w).
  rewrite (bind_ok _ _ _ _ _ Hq).
  unfold emit_created, lift, mbind, M_bind. rewrite Hg.
  now destruct Hv as [-> | ->].
Qed.

Lemma onEvent_data_without_result_witness :
  fst (onEvent {| event_inputConfig := blueprint_inputs;
                  app_config := config_full |}
         (world_example [login_ok "tok" 1700003600]
            [query_data (JObj [("other", JNum 1)])]))
  = Throw TypeError.
Proof.
  pose (input := {| event_inputConfig := blueprint_inputs;
                    app_config := config_full |}).
  pose (w := world_example [login_ok "tok" 1700003600]
               [query_data (JObj [("other", JNum 1)])]).
  pose (credentials := {| apiKeyId := JStr "a"; apiKeySecret := JStr "b";
                          endpoint := JStr "x.example.com" |}).
  pose (w' := snd (executeSpaceliftQuery credentials
                     CREATE_STACK_FROM_BLUEPRINT_MUTATION
                     (Some (createVariables blueprint_inputs)) w)).
  assert (onEvent input w = (Throw TypeError, w')) as H.
  { apply (onEvent_data_without_result input w credentials
             (JObj [("other", JNum 1)]) w' JUndefined).
    - reflexivity.
    - vm_compute. reflexivity.
    - reflexivity.
    - now left. }
  exact (f_equal fst H).
Defined.

(** ** The first request *)

Lemma exec_continues_after_first c q vars w token w1 r w2 :
  getSpaceliftJWT c w = (Ok token, w1) ->
  makeRequest c q vars token w1 = (Ok r, w2) ->
  continues c q vars w2 (snd (executeSpaceliftQuery c q vars w)).
Proof.
  intros H1 H2.
  pose proof (makeRequest_continues c q vars) as Rq.
  pose proof (refreshSpaceliftJWT_continues c q vars) as Rf.
  pose proof (continues_trans c q vars) as T.
  pose proof (continues_refl c q vars) as Rx.
  destruct (errors r) as [errs|] eqn:E.
  2:{ rewrite (exec_first_no_errors c q vars w token w1 H1 r w2 H2 E).
      rewrite return_data_world. auto. }
  destruct (is_unauthorized errs) eqn:U.
  2:{ rewrite (exec_first_other_errors c q vars w token w1 H1 r w2 H2
                 errs E U). simpl. auto. }
  destruct (refreshSpaceliftJWT c w2) as [res w3] eqn:R.
  destruct res as [token'|e].
  2:{ rewrite (exec_refresh_fails c q vars w token w1 H1 r w2 H2 errs E U
                 e w3 R). simpl. eauto. }
  destruct (makeRequest c q vars token' w3) as [res' w4] eqn:R'.
  destruct res' as [r'|e].
  2:{ rewrite (exec_retry_rejected c q vars w token w1 H1 r w2 H2 errs E U
                 token' w3 R e w4 R'). simpl. eauto. }
  destruct (errors r') as [errs'|] eqn:E'.
  - rewrite (exec_retry_errors c q vars w token w1 H1 r w2 H2 errs E U
               token' w3 R r' w4 errs' R' E'). simpl. eauto.
  - rewrite (exec_retry_no_errors c q vars w token w1 H1 r w2 H2 errs E U
               token' w3 R r' w4 R' E').
    rewrite return_data_world. eauto.
Qed.

(** X18.  With a token in the cache, every run starts with one lookup
    under the cache key and then the query request carrying the cached
    token: no login is made before the first request, and whatever the
    run logs later comes after these two events. *)
Theorem run_starts_with_cached_token c q vars w entry :
  kv_app w !! getCacheKey c = Some entry ->
  exists later : list Event,
    log (snd (executeSpaceliftQuery c q vars w))
    = (later
       ++ [EvQuery (graphql_url c) (cached_jwt (kv_value entry)) q vars;
           EvKvGet (getCacheKey c)]
       ++ log w)%list
    /\ Forall (event_of_run c q vars) later.
Proof.
  intros Hhit.
  assert (getSpaceliftJWT c w
          = (Ok (cached_jwt (kv_value entry)),
             emit (EvKvGet (getCacheKey c)) w)) as H1.
  { unfold getSpaceliftJWT, kv_get. unfold mbind at 1. unfold M_bind at 1.
    rewrite Hhit. reflexivity. }
  destruct (makeRequest c q vars (cached_jwt (kv_value entry))
              (emit (EvKvGet (getCacheKey c)) w)) as [res w2] eqn:H2.
  pose proof (makeRequest_inv c q vars _ _ res w2 H2) as (L2 & _).
  destruct res as [r|e].
  - destruct (exec_continues_after_first c q vars w _ _ r w2 H1 H2)
      as (later & L & F).
    exists later. split; [|exact F]. rewrite L, L2. reflexivity.
  - exists []. split; [|constructor].
    rewrite (exec_first_rejected c q vars w _ _ H1 e w2 H2). exact L2.
Qed.

Lemma run_starts_with_cached_token_witness :
  exists later : list Event,
    log (snd (executeSpaceliftQuery creds_example "query" None
                (world_cached [login_ok "fresh" 1700003600]
                   [query_errors [err "Unauthorized"];
                    query_data stack_created])))
    = (later
       ++ [EvQuery "https://x.example.com/graphql" "cached" "query" None;
           EvKvGet "spacelift_jwt_x.example.com_K1"])%list.
Proof.
  destruct (run_starts_with_cached_token creds_example "query" None
              (world_cached [login_ok "fresh" 1700003600]
                 [query_errors [err "Unauthorized"];
                  query_data stack_created])
              {| kv_value := {| cached_jwt := "cached" |}; kv_ttl := 3000 |})
    as (later & L & _); [vm_compute; reflexivity|].
  exists later. rewrite L. reflexivity.
Defined.
